(** * NebulaForge: the deterministic procedural generator

    A shallow embedding of [backend/src/proceduralGenerator.ts] and the
    properties of its blueprint generator, [generateModelSpec].

    Conventions of the embedding.
    - A JavaScript [number] that the code only ever uses as an integer (the
      generator state, array indices, segment counts, mesh counts) is a
      [Z].  The generator state stays below 2^47, so the doubles of the
      source hold it exactly.  Every other number is an exact rational
      [Q]: a decimal literal such as [1.1] is the decimal itself,
      [Math.PI] is the rational value of the double, and the rounding of
      double arithmetic is left out.  A draw is a multiple of
      1/2147483646, far coarser than that rounding.
    - A prompt is a [string] of ASCII characters; [toLowerCase] and [trim]
      act on the ASCII letters and the ASCII white space, and the bytes
      hashed are the characters.
    - [undefined] is [None]; an array read out of range gives [None], and
      a template literal prints it as "undefined".
    - The closure returned by [createGenerator] is its captured variable
      [value]; code that receives [rand] is a computation in the state
      monad [Gen] over that variable.
    - The only exception the generator can raise, the [TypeError] of
      reading a property of [undefined], is an explicit outcome.
    - [crypto.createHash('sha256')] is SHA-256 as FIPS 180-4 defines it,
      written out and run on the standard test messages. *)

From Stdlib Require Import ZArith QArith Qround List String Ascii Bool Lia Lqa.
From Stdlib Require Import Qminmax DecimalString.
Import ListNotations.

Local Open Scope Z_scope.

(* ------------------------------------------------------------------ *)
(** ** JavaScript built-ins used by the generator *)

Module JS.

(** [Array.prototype[i]] for an integer [i]. *)
Definition at_ {A : Type} (l : list A) (i : Z) : option A :=
  if i <? 0 then None else nth_error l (Z.to_nat i).

(** [a ?? b]. *)
Definition nullish {A : Type} (a : option A) (b : A) : A :=
  match a with Some x => x | None => b end.

(** [Array.prototype.length]. *)
Definition len {A : Type} (l : list A) : Z := Z.of_nat (List.length l).

Definition lowerChar (c : ascii) : ascii :=
  let n := nat_of_ascii c in
  if (65 <=? n)%nat && (n <=? 90)%nat then ascii_of_nat (n + 32) else c.

(** [String.prototype.toLowerCase]. *)
Fixpoint toLowerCase (s : string) : string :=
  match s with
  | EmptyString => EmptyString
  | String c t => String (lowerChar c) (toLowerCase t)
  end.

(** [text.includes(term)]. *)
Fixpoint includes (text term : string) : bool :=
  if String.prefix term text then true
  else match text with
       | EmptyString => false
       | String _ t => includes t term
       end.

Definition isWhiteSpace (c : ascii) : bool :=
  let n := nat_of_ascii c in
  ((9 <=? n)%nat && (n <=? 13)%nat) || (n =? 32)%nat.

Fixpoint trimStart (s : string) : string :=
  match s with
  | EmptyString => EmptyString
  | String c t => if isWhiteSpace c then trimStart t else s
  end.

Fixpoint trimEnd (s : string) : string :=
  match s with
  | EmptyString => EmptyString
  | String c t =>
      match trimEnd t with
      | EmptyString => if isWhiteSpace c then EmptyString else String c EmptyString
      | t' => String c t'
      end
  end.

(** [String.prototype.trim]. *)
Definition trim (s : string) : string := trimEnd (trimStart s).

(** [s.split(' ')]: the segments between single spaces. *)
Fixpoint split_space (s : string) : list string :=
  match s with
  | EmptyString => [EmptyString]
  | String c t =>
      if Ascii.eqb c " "%char then EmptyString :: split_space t
      else match split_space t with
           | w :: ws => String c w :: ws
           | [] => [String c EmptyString]
           end
  end.

(** Truthiness of a string: [Boolean(s)]. *)
Definition truthy (s : string) : bool :=
  match s with EmptyString => false | _ => true end.

(** [new Set(l)] read back with [Array.from]: first occurrences, in order. *)
Fixpoint dedup (seen l : list string) : list string :=
  match l with
  | [] => []
  | x :: t =>
      if existsb (String.eqb x) seen then dedup seen t
      else x :: dedup (x :: seen) t
  end.

(** [String(n)] for an integer [n]. *)
Definition string_of_Z (n : Z) : string := NilZero.string_of_int (Z.to_int n).

(** [Math.floor] and [Math.round] (halves go up). *)
Definition floor (x : Q) : Z := Qfloor x.
Definition round (x : Q) : Z := Qfloor (x + (1 # 2))%Q.

(** The double [Math.PI], as the rational it denotes. *)
Definition PI : Q := 884279719003555 # 281474976710656.

End JS.

(* ------------------------------------------------------------------ *)
(** ** SHA-256 (FIPS 180-4), as [crypto.createHash('sha256')] computes it *)

Module SHA256.

Definition w32 : Z := 4294967296.

Definition add32 (x y : Z) : Z := (x + y) mod w32.

Definition rotr (n x : Z) : Z :=
  Z.lor (Z.shiftr x n) (Z.shiftl x (32 - n)) mod w32.

Definition not32 (x : Z) : Z := w32 - 1 - x.

Definition Ch (x y z : Z) : Z := Z.lxor (Z.land x y) (Z.land (not32 x) z).
Definition Maj (x y z : Z) : Z :=
  Z.lxor (Z.lxor (Z.land x y) (Z.land x z)) (Z.land y z).
Definition Sigma0 (x : Z) : Z := Z.lxor (Z.lxor (rotr 2 x) (rotr 13 x)) (rotr 22 x).
Definition Sigma1 (x : Z) : Z := Z.lxor (Z.lxor (rotr 6 x) (rotr 11 x)) (rotr 25 x).
Definition sigma0 (x : Z) : Z := Z.lxor (Z.lxor (rotr 7 x) (rotr 18 x)) (Z.shiftr x 3).
Definition sigma1 (x : Z) : Z := Z.lxor (Z.lxor (rotr 17 x) (rotr 19 x)) (Z.shiftr x 10).

(** The round constants and the initial hash value are defined from the
    first primes: the first 32 bits of the fractional parts of their cube
    roots and of their square roots. *)
Fixpoint trial (fuel : nat) (d n : Z) : bool :=
  match fuel with
  | O => true
  | S f => if n mod d =? 0 then false else trial f (d + 1) n
  end.

Definition is_prime (n : Z) : bool := trial (Z.to_nat (n - 2)) 2 n.

Definition primes (count : nat) : list Z :=
  List.firstn count
    (List.filter is_prime (List.map Z.of_nat (List.seq 2 310))).

(** Integer cube root, bit by bit from bit [bits - 1]. *)
Fixpoint cbrt (bits : nat) (r n : Z) : Z :=
  match bits with
  | O => r
  | S b =>
      let r' := r + 2 ^ Z.of_nat b in
      cbrt b (if r' * r' * r' <=? n then r' else r) n
  end.

Definition K : list Z :=
  Eval vm_compute in
    List.map (fun p => cbrt 36 0 (p * 2 ^ 96) mod w32) (primes 64).

Definition H0 : list Z :=
  Eval vm_compute in
    List.map (fun p => Z.sqrt (p * 2 ^ 64) mod w32) (primes 8).

Definition bytes_of_string (s : string) : list Z :=
  List.map (fun c => Z.of_nat (nat_of_ascii c)) (list_ascii_of_string s).

(** Big-endian bytes of [n], [k] of them. *)
Fixpoint be_bytes (k : nat) (n : Z) : list Z :=
  match k with
  | O => []
  | S k' => be_bytes k' (n / 256) ++ [n mod 256]
  end.

(** Message, a one bit, zero bits up to 56 mod 64, the bit length on 8 bytes. *)
Definition pad (msg : list Z) : list Z :=
  let l := Z.of_nat (List.length msg) in
  let zeros := Z.to_nat ((55 - l) mod 64) in
  msg ++ [128] ++ List.repeat 0 zeros ++ be_bytes 8 (8 * l).

Fixpoint words (fuel : nat) (bs : list Z) : list Z :=
  match fuel, bs with
  | S f, b0 :: b1 :: b2 :: b3 :: rest =>
      (((b0 * 256 + b1) * 256 + b2) * 256 + b3) :: words f rest
  | _, _ => []
  end.

(** The message schedule, newest word first: [rev] of W_0 .. W_t. *)
Fixpoint schedule (n : nat) (rw : list Z) : list Z :=
  match n with
  | O => rw
  | S n' =>
      let w := add32 (add32 (add32 (sigma1 (nth 1 rw 0)) (nth 6 rw 0))
                             (sigma0 (nth 14 rw 0))) (nth 15 rw 0) in
      schedule n' (w :: rw)
  end.

Record Regs : Type :=
  mkRegs { ra : Z; rb : Z; rc : Z; rd : Z; re : Z; rf : Z; rg : Z; rh : Z }.

Definition round (r : Regs) (kw : Z * Z) : Regs :=
  let t1 := add32 (add32 (add32 (add32 (rh r) (Sigma1 (re r)))
                                (Ch (re r) (rf r) (rg r))) (fst kw)) (snd kw) in
  let t2 := add32 (Sigma0 (ra r)) (Maj (ra r) (rb r) (rc r)) in
  mkRegs (add32 t1 t2) (ra r) (rb r) (rc r) (add32 (rd r) t1) (re r) (rf r) (rg r).

Definition regs_of (h : list Z) : Regs :=
  mkRegs (nth 0 h 0) (nth 1 h 0) (nth 2 h 0) (nth 3 h 0)
         (nth 4 h 0) (nth 5 h 0) (nth 6 h 0) (nth 7 h 0).

Definition compress (h : list Z) (block : list Z) : list Z :=
  let w := List.rev (schedule 48 (List.rev block)) in
  let r := List.fold_left round (List.combine K w) (regs_of h) in
  List.map (fun p => add32 (fst p) (snd p))
    (List.combine h [ra r; rb r; rc r; rd r; re r; rf r; rg r; rh r]).

Fixpoint blocks (fuel : nat) (h : list Z) (ws : list Z) : list Z :=
  match fuel with
  | O => h
  | S f =>
      match ws with
      | [] => h
      | _ => blocks f (compress h (List.firstn 16 ws)) (List.skipn 16 ws)
      end
  end.

(** The digest as its eight 32-bit words. *)
Definition digest (s : string) : list Z :=
  let bs := pad (bytes_of_string s) in
  let ws := words (List.length bs) bs in
  blocks (List.length ws) H0 ws.

Definition hexDigit (n : Z) : ascii :=
  nth (Z.to_nat n) (list_ascii_of_string "0123456789abcdef"%string) "0"%char.

(** Eight lower-case hexadecimal digits of a 32-bit word. *)
Definition hex32 (w : Z) : string :=
  string_of_list_ascii
    (List.map (fun k => hexDigit ((w / 16 ^ k) mod 16)) [7; 6; 5; 4; 3; 2; 1; 0]).

(** [.digest('hex')]. *)
Definition hexdigest (s : string) : string :=
  String.concat ""%string (List.map hex32 (digest s)).

End SHA256.

(* ------------------------------------------------------------------ *)
(** ** The data model *)

Inductive GeometryKind : Type :=
  sphere | box | torus | cylinder | cone | icosahedron.

Inductive Environment : Type := studio | city | sunset | nebula.

Inductive DetailBias : Type := neutral | organic | mechanical.

Definition Vec3 : Type := (Q * Q * Q)%type.

(** One constructor per member of the union [GeometrySpec]; the [type] tag
    is the constructor. *)
Inductive GeometrySpec : Type :=
| SphereGeometry (radius : Q) (widthSegments heightSegments : Z)
| BoxGeometry (width height depth : Q)
| TorusGeometry (radius tube : Q) (radialSegments tubularSegments : Z) (arc : Q)
| CylinderGeometry (radiusTop radiusBottom height : Q)
                   (radialSegments heightSegments : Z) (openEnded : bool)
| ConeGeometry (radius height : Q) (radialSegments heightSegments : Z)
| IcosahedronGeometry (radius : Q) (detail : Z).

Module MaterialSpec.
Record t : Type := mk {
  color : option string;
  metalness : Q;
  roughness : Q;
  emissive : option string;
  wireframe : bool;
  useTexture : bool }.
End MaterialSpec.

Module MeshModifiers.
Record t : Type := mk {
  noiseAmplitude : option Q;
  noiseFrequency : option Q;
  noiseOffset : option Q;
  twistStrength : option Q;
  taperStrength : option Q;
  squash : option Q }.
End MeshModifiers.

Module MeshTransform.
Record t : Type := mk { position : Vec3; rotation : Vec3; scale : Vec3 }.
End MeshTransform.

Module MeshDescriptor.
Record t : Type := mk {
  id : string;
  name : string;
  geometry : GeometrySpec;
  material : MaterialSpec.t;
  transform : MeshTransform.t;
  modifiers : option MeshModifiers.t }.
End MeshDescriptor.

Module ProceduralModelSpec.
Record t : Type := mk {
  prompt : string;
  seed : Z;
  environment : Environment;
  accentColor : option string;
  meshes : list MeshDescriptor.t }.
End ProceduralModelSpec.

Module BaseMaterial.
Record t : Type := mk { metalness : Q; roughness : Q }.
End BaseMaterial.

Module ThemeModifiers.
Record t : Type := mk {
  noiseAmplitude : Q;
  noiseFrequency : Q;
  twistStrength : Q;
  taperStrength : Q;
  squash : Q }.
End ThemeModifiers.

Module ThemePreset.
Record t : Type := mk {
  id : string;
  keywords : list string;
  primaryGeometry : GeometryKind;
  secondaryGeometries : list GeometryKind;
  palette : list string;
  baseMaterial : BaseMaterial.t;
  environment : Environment;
  accentColor : string;
  modifiers : ThemeModifiers.t }.
End ThemePreset.

Module PromptHints.
Record t : Type := mk {
  geometryPreference : option GeometryKind;
  paletteOverride : option (list string);
  accentColor : option string;
  environmentHint : option Environment;
  preferredThemeId : option string;
  detailBias : DetailBias;
  meshTarget : option Z }.
End PromptHints.

Module DescriptorContext.
Record t : Type := mk {
  palette : list string;
  accentColor : string;
  primaryGeometry : option GeometryKind;
  detailBias : DetailBias }.
End DescriptorContext.

(* ------------------------------------------------------------------ *)
(** ** The seeded generator and the monad of code that draws from it *)

(** A computation that may call [rand]: from the closure's [value] to a
    result and the new [value]. *)
Definition Gen (A : Type) : Type := Z -> A * Z.

Definition ret {A : Type} (a : A) : Gen A := fun value => (a, value).

Definition bind {A B : Type} (c : Gen A) (k : A -> Gen B) : Gen B :=
  fun value => let (a, value') := c value in k a value'.

Declare Scope gen_scope.
Delimit Scope gen_scope with gen.
Notation "x <- c ;; k" := (bind c (fun x => k))
  (at level 61, c at next level, right associativity) : gen_scope.

Definition modulus : Z := 2147483647.

(** [createGenerator(seed)]: the closure starts with [value = seed]. *)
Definition createGenerator (seed : Z) : Z := seed.

(** The closure itself:
    [value = (value * 16807) % 2147483647; return (value - 1) / 2147483646]. *)
Definition rand : Gen Q :=
  fun value =>
    let value' := Z.rem (value * 16807) 2147483647 in
    (((value' - 1) # 2147483646)%Q, value').

Definition clamp (value min max : Q) : Q := Qmin max (Qmax min value).

(** [clamp] at integer arguments. *)
Definition clampZ (value min max : Z) : Z := Z.min max (Z.max min value).

Definition randomRange (min max : Q) : Gen Q :=
  (r <- rand ;; ret (min + (max - min) * r)%Q)%gen.

Definition hexValue (c : ascii) : Z :=
  let n := Z.of_nat (nat_of_ascii c) in
  if (48 <=? n) && (n <=? 57) then n - 48
  else if (97 <=? n) && (n <=? 102) then n - 87
  else if (65 <=? n) && (n <=? 70) then n - 55
  else 0.

(** [parseInt(s, 16)] on a string of hexadecimal digits. *)
Definition parseInt16 (s : string) : Z :=
  List.fold_left (fun acc c => acc * 16 + hexValue c) (list_ascii_of_string s) 0.

Definition createSeed (prompt : string) : Z :=
  let hash := SHA256.hexdigest prompt in
  parseInt16 (String.substring 0 8 hash).

(* ------------------------------------------------------------------ *)
(** ** The catalogs *)

Section Catalogs.

Local Open Scope string_scope.
Local Open Scope Q_scope.

Definition presetMechanical : ThemePreset.t :=
  ThemePreset.mk "mechanical"
    ["robot"; "mech"; "machine"; "engine"; "industrial"; "drone"; "armor";
     "cyber"; "android"; "gear"; "factory"]
    box [cylinder; box; torus]
    ["#94a3b8"; "#facc15"; "#0f172a"; "#cbd5f5"]
    (BaseMaterial.mk 0.85 0.25) city "#facc15"
    (ThemeModifiers.mk 0.08 2.4 0.15 0.05 0.12).

Definition presetOrganic : ThemePreset.t :=
  ThemePreset.mk "organic"
    ["creature"; "biologic"; "organic"; "flora"; "nature"; "plant"; "beast";
     "animal"; "character"; "dragon"; "fauna"; "alien"]
    sphere [cone; sphere; icosahedron]
    ["#34d399"; "#0f766e"; "#bef264"; "#ecfccb"]
    (BaseMaterial.mk 0.2 0.7) sunset "#bef264"
    (ThemeModifiers.mk 0.35 1.3 0.45 0.35 0.25).

Definition presetAero : ThemePreset.t :=
  ThemePreset.mk "aero"
    ["spaceship"; "jet"; "rocket"; "craft"; "vehicle"; "car"; "fighter";
     "aircraft"; "shuttle"; "hover"; "ship"; "drone"]
    cylinder [cone; box; torus]
    ["#60a5fa"; "#f8fafc"; "#0369a1"; "#e0f2fe"]
    (BaseMaterial.mk 0.65 0.35) studio "#60a5fa"
    (ThemeModifiers.mk 0.12 3.1 0.25 0.15 0.2).

Definition presetAbstract : ThemePreset.t :=
  ThemePreset.mk "abstract"
    ["abstract"; "symbol"; "glyph"; "portal"; "totem"; "sculpture"; "sigil";
     "icon"; "logo"]
    icosahedron [torus; sphere; cone]
    ["#c084fc"; "#a855f7"; "#f472b6"; "#fdf2f8"]
    (BaseMaterial.mk 0.35 0.45) nebula "#c084fc"
    (ThemeModifiers.mk 0.28 2.1 0.35 0.2 0.3).

Definition THEME_PRESETS : list ThemePreset.t :=
  [presetMechanical; presetOrganic; presetAero; presetAbstract].

Definition vectorNameSeeds : list string :=
  ["Nebula"; "Axiom"; "Vertex"; "Pulse"; "Aurora"; "Helix"; "Solace"].

Definition geometryTitles (kind : GeometryKind) : string :=
  match kind with
  | sphere => "Core"
  | box => "Hull"
  | torus => "Ring"
  | cylinder => "Column"
  | cone => "Spire"
  | icosahedron => "Shard"
  end.

(** The tag of a kind, as a template literal prints it. *)
Definition kindName (kind : GeometryKind) : string :=
  match kind with
  | sphere => "sphere"
  | box => "box"
  | torus => "torus"
  | cylinder => "cylinder"
  | cone => "cone"
  | icosahedron => "icosahedron"
  end.

Definition includesAny (text : string) (terms : list string) : bool :=
  List.existsb (fun term => JS.includes text term) terms.

(** The keyword tables are objects; [Object.entries] lists their entries in
    the order they are written. *)
Definition GEOMETRY_KEYWORDS : list (GeometryKind * list string) :=
  [ (sphere, ["orb"; "sphere"; "globe"; "planet"; "eye"; "bubble"; "core"]);
    (box, ["cube"; "block"; "fortress"; "monolith"; "crate"; "terminal"]);
    (torus, ["ring"; "halo"; "loop"; "portal"; "gateway"; "donut"]);
    (cylinder, ["tower"; "pillar"; "rocket"; "barrel"; "staff"; "sword";
                "blade"; "engine"; "cannon"]);
    (cone, ["spike"; "spire"; "pyramid"; "mountain"; "fang"; "icicle"]);
    (icosahedron, ["crystal"; "shard"; "polyhedron"; "geode"; "gem"; "diamond"]) ].

Definition COLOR_KEYWORDS : list (string * list string) :=
  [ ("#ef4444", ["red"; "scarlet"; "crimson"; "ruby"]);
    ("#f59e0b", ["gold"; "amber"; "sunset"; "bronze"; "copper"]);
    ("#3b82f6", ["blue"; "azure"; "sapphire"; "cyan"]);
    ("#22c55e", ["green"; "emerald"; "jade"; "lime"]);
    ("#a855f7", ["purple"; "violet"; "magenta"; "neon"]);
    ("#f472b6", ["pink"; "rose"; "fuchsia"]);
    ("#e5e7eb", ["white"; "silver"; "pearl"]);
    ("#1f2937", ["black"; "obsidian"; "onyx"; "shadow"]);
    ("#f97316", ["orange"; "sunrise"; "ember"]);
    ("#94a3b8", ["steel"; "gray"; "gunmetal"]) ].

Definition ENVIRONMENT_KEYWORDS : list (Environment * list string) :=
  [ (studio, ["studio"; "product"; "turntable"; "showroom"]);
    (city, ["city"; "urban"; "neon"; "street"; "industrial"]);
    (sunset, ["sunset"; "dusk"; "golden hour"; "desert"; "forest"]);
    (nebula, ["space"; "nebula"; "galaxy"; "cosmic"; "void"]) ].

Definition MULTI_OBJECT_KEYWORDS : list string :=
  ["fleet"; "swarm"; "array"; "cluster"; "forest"; "army"; "collection";
   "pack"; "hive"].

Definition SINGLE_OBJECT_KEYWORDS : list string :=
  ["statue"; "bust"; "monolith"; "idol"; "single"; "solo"; "portrait"].

(** The table has the keys [organic] and [mechanical] only. *)
Definition DETAIL_BIAS_KEYWORDS (bias : DetailBias) : list string :=
  match bias with
  | organic => ["creature"; "organic"; "flora"; "fauna"; "dragon"; "beast";
                "character"; "alien"; "mythic"]
  | mechanical => ["robot"; "mech"; "engine"; "industrial"; "armor"; "cyber";
                   "drone"; "vehicle"; "turret"]
  | neutral => []
  end.

Definition TEMPLATE_DEFAULT_PALETTE : list string :=
  ["#d4b48c"; "#1f1f1f"; "#f5f5f5"].

Definition createTemplateId (prefix : string) : Gen string :=
  (r <- rand ;;
   ret (prefix ++ "-" ++ JS.string_of_Z (JS.round (r * 1000000))))%gen.

(** A template's [buildMeshes] receives [{ palette, accentColor, rand }];
    [rand] is the state of [Gen]. *)
Record ShapeTemplate : Type := mkShapeTemplate {
  template_id : string;
  template_keywords : list string;
  template_environment : option Environment;
  buildMeshes : list string -> option string -> Gen (list MeshDescriptor.t) }.

Definition cricketBatMeshes (palette : list string) (accentColor : option string)
  : Gen (list MeshDescriptor.t) :=
  let colors := if (0 <? JS.len palette)%Z then palette else TEMPLATE_DEFAULT_PALETTE in
  let wood := JS.nullish (JS.at_ colors 0) "#d4b48c" in
  let grip := JS.nullish (JS.at_ colors 1) "#171717" in
  let sticker :=
    JS.nullish accentColor (JS.nullish (JS.at_ colors 2) "#f97316") in
  (bladeId <- createTemplateId "bat-blade" ;;
   handleId <- createTemplateId "bat-handle" ;;
   capId <- createTemplateId "bat-cap" ;;
   ret
     [ MeshDescriptor.mk bladeId "Cricket-Blade"
         (BoxGeometry 0.45 2.2 0.32)
         (MaterialSpec.mk (Some wood) 0.08 0.72 None false true)
         (MeshTransform.mk (0, 0.4, 0)
            (- JS.PI * 0.02, 0, JS.PI * 0.05) (1, 1, 1))
         (Some (MeshModifiers.mk (Some 0.015) None None None (Some 0.3) (Some 0.12)));
       MeshDescriptor.mk handleId "Cricket-Handle"
         (CylinderGeometry 0.12 0.15 1.5 48 1 false)
         (MaterialSpec.mk (Some grip) 0.05 0.45 None false false)
         (MeshTransform.mk (0, 1.35, - 0.05) (JS.PI / 2, 0, 0) (1, 1, 1))
         (Some (MeshModifiers.mk (Some 0.03) None None (Some 0.25) None None));
       MeshDescriptor.mk capId "Bat-Logo-Panel"
         (BoxGeometry 0.4 0.9 0.05)
         (MaterialSpec.mk (Some sticker) 0.2 0.4 accentColor false false)
         (MeshTransform.mk (0, 0.2, 0.18) (0, 0, JS.PI * 0.05) (1, 1, 1))
         (Some (MeshModifiers.mk (Some 0.01) None None None None None)) ])%gen.

Definition SHAPE_TEMPLATES : list ShapeTemplate :=
  [ mkShapeTemplate "cricket-bat" ["cricket bat"; "bat"] (Some studio)
      cricketBatMeshes ].

End Catalogs.

(* ------------------------------------------------------------------ *)
(** ** Hints, theme and palette *)

Section Hints.

Local Open Scope string_scope.

(** [Object.entries(table).find(([_, terms]) => includesAny(normalized, terms))?.[0]] *)
Definition firstEntry {A : Type} (table : list (A * list string))
           (normalized : string) : option A :=
  option_map fst
    (List.find (fun entry => includesAny normalized (snd entry)) table).

Definition themeMatches (normalized : string) (preset : ThemePreset.t) : bool :=
  List.existsb (fun keyword => JS.includes normalized keyword)
               (ThemePreset.keywords preset).

Definition analyzePromptHints (prompt : string) : PromptHints.t :=
  let normalized := JS.toLowerCase prompt in
  let geometryPreference := firstEntry GEOMETRY_KEYWORDS normalized in
  let paletteOverride :=
    List.map fst
      (List.filter (fun entry => includesAny normalized (snd entry)) COLOR_KEYWORDS) in
  let environmentHint := firstEntry ENVIRONMENT_KEYWORDS normalized in
  let preferredThemeId :=
    option_map ThemePreset.id (List.find (themeMatches normalized) THEME_PRESETS) in
  let detailBias :=
    if includesAny normalized (DETAIL_BIAS_KEYWORDS organic) then organic
    else if includesAny normalized (DETAIL_BIAS_KEYWORDS mechanical) then mechanical
    else neutral in
  let meshTarget :=
    if includesAny normalized SINGLE_OBJECT_KEYWORDS then Some 1%Z
    else if includesAny normalized MULTI_OBJECT_KEYWORDS then Some 4%Z
    else None in
  PromptHints.mk
    geometryPreference
    (if (0 <? JS.len paletteOverride)%Z then Some (JS.dedup [] paletteOverride) else None)
    (JS.at_ paletteOverride 0)
    environmentHint
    preferredThemeId
    detailBias
    meshTarget.

(** Returns [{ palette, accentColor }]. *)
Definition resolvePalette (theme : ThemePreset.t) (hints : PromptHints.t)
  : list string * string :=
  match PromptHints.paletteOverride hints with
  | Some override =>
      if (0 <? JS.len override)%Z then
        let merged := JS.dedup [] (override ++ ThemePreset.palette theme)%list in
        let palette :=
          List.firstn
            (Z.to_nat (Z.max (JS.len (ThemePreset.palette theme)) (JS.len merged)))
            merged in
        (palette,
         JS.nullish (PromptHints.accentColor hints)
           (JS.nullish (JS.at_ palette 0) (ThemePreset.accentColor theme)))
      else
        (ThemePreset.palette theme,
         JS.nullish (PromptHints.accentColor hints) (ThemePreset.accentColor theme))
  | None =>
      (ThemePreset.palette theme,
       JS.nullish (PromptHints.accentColor hints) (ThemePreset.accentColor theme))
  end.

(** [undefined] when the drawn index misses the catalog. *)
Definition pickTheme (prompt : string) (hints : option PromptHints.t)
  : Gen (option ThemePreset.t) :=
  let explicit :=
    match hints with
    | Some h =>
        match PromptHints.preferredThemeId h with
        | Some wanted =>
            if JS.truthy wanted then
              List.find (fun preset => String.eqb (ThemePreset.id preset) wanted)
                        THEME_PRESETS
            else None
        | None => None
        end
    | None => None
    end in
  match explicit with
  | Some preset => ret (Some preset)
  | None =>
      let normalized := JS.toLowerCase prompt in
      match List.find (themeMatches normalized) THEME_PRESETS with
      | Some matched => ret (Some matched)
      | None =>
          (r <- rand ;;
           ret (JS.at_ THEME_PRESETS
                  (JS.floor (r * inject_Z (JS.len THEME_PRESETS))%Q)))%gen
      end
  end.

Definition tryTemplateSpec (prompt : string) (hints : PromptHints.t) (seed : Z)
  : option ProceduralModelSpec.t :=
  let normalized := JS.toLowerCase prompt in
  match List.find (fun shape => includesAny normalized (template_keywords shape))
                  SHAPE_TEMPLATES with
  | None => None
  | Some template =>
      let rand0 := createGenerator seed in
      let palette :=
        match PromptHints.paletteOverride hints with
        | Some override =>
            if (0 <? JS.len override)%Z then override else TEMPLATE_DEFAULT_PALETTE
        | None => TEMPLATE_DEFAULT_PALETTE
        end in
      let accentColor :=
        match PromptHints.accentColor hints with
        | Some c => Some c
        | None => JS.at_ palette 0
        end in
      let meshes := fst (buildMeshes template palette accentColor rand0) in
      Some (ProceduralModelSpec.mk
              prompt
              seed
              (JS.nullish (template_environment template)
                 (JS.nullish (PromptHints.environmentHint hints) studio))
              accentColor
              meshes)
  end.

End Hints.

(* ------------------------------------------------------------------ *)
(** ** Mesh composition *)

Section Composer.

Local Open Scope string_scope.
Local Open Scope Q_scope.
Local Open Scope gen_scope.

(** [Math.floor(rand() * n)] for an integer [n]. *)
Definition randomIndex (n : Z) : Gen Z :=
  r <- rand ;; ret (JS.floor (r * inject_Z n)).

(** [kind] is [undefined] when an index drawn from the pool missed it; the
    [switch] then takes its [default] branch. *)
Definition createGeometry (kind : option GeometryKind) : Gen GeometrySpec :=
  match kind with
  | Some sphere =>
      radius <- randomRange 1.1 1.8 ;;
      w <- randomIndex 16 ;;
      h <- randomIndex 16 ;;
      ret (SphereGeometry radius (32 + w) (32 + h))
  | Some box =>
      width <- randomRange 1 2.2 ;;
      height <- randomRange 1 1.6 ;;
      depth <- randomRange 1 2 ;;
      ret (BoxGeometry width height depth)
  | Some torus =>
      radius <- randomRange 1.2 1.9 ;;
      tube <- randomRange 0.2 0.5 ;;
      radial <- randomIndex 16 ;;
      tubular <- randomIndex 32 ;;
      ret (TorusGeometry radius tube (16 + radial) (48 + tubular) (JS.PI * 2))
  | Some cylinder =>
      radiusTop <- randomRange 0.5 1.2 ;;
      radiusBottom <- randomRange 0.8 1.5 ;;
      height <- randomRange 2 3.2 ;;
      radial <- randomIndex 16 ;;
      h <- randomIndex 3 ;;
      ret (CylinderGeometry radiusTop radiusBottom height (32 + radial) (1 + h) false)
  | Some cone =>
      radius <- randomRange 0.7 1.4 ;;
      height <- randomRange 1.4 2.4 ;;
      radial <- randomIndex 16 ;;
      h <- randomIndex 2 ;;
      ret (ConeGeometry radius height (32 + radial) (1 + h))
  | Some icosahedron | None =>
      radius <- randomRange 1.2 1.7 ;;
      detail <- randomIndex 2 ;;
      ret (IcosahedronGeometry radius detail)
  end.

Definition createTransform (index : Z) : Gen MeshTransform.t :=
  if (index =? 0)%Z then
    ret (MeshTransform.mk (0, 0, 0) (0, 0, 0) (1, 1, 1))
  else
    px <- randomRange (- 1.2) 1.2 ;;
    py <- randomRange (- 0.2) 1.2 ;;
    pz <- randomRange (- 1.1) 1.1 ;;
    rx <- randomRange (- 0.4) 0.4 ;;
    ry <- randomRange 0 (JS.PI * 2) ;;
    rz <- randomRange (- 0.4) 0.4 ;;
    sx <- randomRange 0.45 0.9 ;;
    sy <- randomRange 0.45 0.9 ;;
    sz <- randomRange 0.45 0.9 ;;
    ret (MeshTransform.mk (px, py, pz) (rx, ry, rz) (sx, sy, sz)).

Definition createMeshName (prompt : string) (geometry : option GeometryKind)
           (index : Z) : Gen string :=
  let primaryDescriptor :=
    JS.nullish (List.find JS.truthy (JS.split_space prompt)) "Artifact" in
  let base := JS.nullish (option_map geometryTitles geometry) "Element" in
  i <- randomIndex (JS.len vectorNameSeeds) ;;
  let prefix := JS.nullish (JS.at_ vectorNameSeeds i) "undefined" in
  ret (prefix ++ "-" ++ base ++ "-"
         ++ (if (index =? 0)%Z then "Prime" else primaryDescriptor)).

(** The local constants of [createMeshDescriptor] that choose the kind. *)
Definition primaryCandidates (theme : ThemePreset.t) (context : DescriptorContext.t)
  : list GeometryKind :=
  [ JS.nullish (DescriptorContext.primaryGeometry context)
               (ThemePreset.primaryGeometry theme);
    ThemePreset.primaryGeometry theme ].

Definition secondaryCandidates (theme : ThemePreset.t) (context : DescriptorContext.t)
  : list GeometryKind :=
  (match DescriptorContext.primaryGeometry context with
   | Some preferred => [preferred]
   | None => []
   end ++ ThemePreset.secondaryGeometries theme)%list.

Definition geometryPool (theme : ThemePreset.t) (index : Z)
           (context : DescriptorContext.t) : list GeometryKind :=
  if (index =? 0)%Z then primaryCandidates theme context
  else secondaryCandidates theme context.

(** [pool[...] ?? theme.secondaryGeometries[...]]: the second draw happens
    only when the first read gave [undefined]. *)
Definition geometryKind (theme : ThemePreset.t) (index : Z)
           (context : DescriptorContext.t) : Gen (option GeometryKind) :=
  let pool := geometryPool theme index context in
  i <- randomIndex (JS.len pool) ;;
  match JS.at_ pool i with
  | Some kind => ret (Some kind)
  | None =>
      j <- randomIndex (JS.len (ThemePreset.secondaryGeometries theme)) ;;
      ret (JS.at_ (ThemePreset.secondaryGeometries theme) j)
  end.

Definition paletteIndex (palette : list string) (index : Z) : Gen Z :=
  raw <- (if (index =? 0)%Z || (JS.len palette =? 1)%Z then ret 0%Z
          else i <- randomIndex (Z.max 1 (JS.len palette - 1)) ;; ret (1 + i)%Z) ;;
  ret (clampZ raw 0 (Z.max 0 (JS.len palette - 1))).

Definition detailMultiplier (bias : DetailBias) : Q :=
  match bias with organic => 1.25 | mechanical => 0.65 | neutral => 1 end.

Definition metalnessBias (bias : DetailBias) : Q :=
  match bias with organic => - 0.2 | mechanical => 0.15 | neutral => 0 end.

Definition roughnessBias (bias : DetailBias) : Q :=
  match bias with organic => 0.2 | mechanical => - 0.1 | neutral => 0 end.

(** The block of [createMeshDescriptor] that builds [modifiers]. *)
Definition createModifiers (theme : ThemePreset.t) (bias : DetailBias)
  : Gen MeshModifiers.t :=
  let base := ThemePreset.modifiers theme in
  a <- randomRange 0.9 1.4 ;;
  f <- randomRange 0.8 1.2 ;;
  o <- rand ;;
  tw <- randomRange 0.7 1.3 ;;
  tp <- randomRange 0.5 1.2 ;;
  sq <- randomRange 0.8 1.2 ;;
  let noiseAmplitude := ThemeModifiers.noiseAmplitude base * a * detailMultiplier bias in
  let noiseFrequency := ThemeModifiers.noiseFrequency base * f in
  let noiseOffset := o * JS.PI * 2 in
  let twistStrength := ThemeModifiers.twistStrength base * tw * detailMultiplier bias in
  let taperStrength := ThemeModifiers.taperStrength base * tp * detailMultiplier bias in
  let squash := ThemeModifiers.squash base * sq in
  ret (match bias with
       | mechanical =>
           MeshModifiers.mk (Some (noiseAmplitude * 0.8)) (Some noiseFrequency)
             (Some noiseOffset) (Some twistStrength) (Some (taperStrength * 0.7))
             (Some (squash * 0.6))
       | _ =>
           MeshModifiers.mk (Some noiseAmplitude) (Some noiseFrequency)
             (Some noiseOffset) (Some twistStrength) (Some taperStrength)
             (Some squash)
       end).

(** The block of [createMeshDescriptor] that builds [material];
    [index > 0 && rand() > 0.85] draws only for a secondary mesh. *)
Definition createMaterial (theme : ThemePreset.t) (palette : list string)
           (chosen : Z) (index : Z) (context : DescriptorContext.t)
  : Gen MaterialSpec.t :=
  let bias := DescriptorContext.detailBias context in
  let color :=
    match JS.at_ palette chosen with
    | Some c => Some c
    | None => JS.at_ (ThemePreset.palette theme) 0
    end in
  wire <- (if (0 <? index)%Z then r <- rand ;; ret (negb (Qle_bool r 0.85))
           else ret false) ;;
  ret (MaterialSpec.mk
         color
         (clamp (BaseMaterial.metalness (ThemePreset.baseMaterial theme)
                 + metalnessBias bias) 0 1)
         (clamp (BaseMaterial.roughness (ThemePreset.baseMaterial theme)
                 + roughnessBias bias) 0 1)
         (if (index =? 0)%Z then Some (DescriptorContext.accentColor context) else None)
         wire
         (index =? 0)%Z).

Definition createMeshDescriptor (theme : ThemePreset.t) (prompt : string)
           (index : Z) (context : DescriptorContext.t) : Gen MeshDescriptor.t :=
  let palette :=
    if (0 <? JS.len (DescriptorContext.palette context))%Z
    then DescriptorContext.palette context else ThemePreset.palette theme in
  kind <- geometryKind theme index context ;;
  geometry <- createGeometry kind ;;
  transform <- createTransform index ;;
  chosen <- paletteIndex palette index ;;
  modifiers <- createModifiers theme (DescriptorContext.detailBias context) ;;
  material <- createMaterial theme palette chosen index context ;;
  suffix <- (r <- rand ;; ret (JS.round (r * 1000000))) ;;
  name <- createMeshName prompt kind index ;;
  ret (MeshDescriptor.mk
         (JS.nullish (option_map kindName kind) "undefined"
            ++ "-" ++ JS.string_of_Z index ++ "-" ++ JS.string_of_Z suffix)
         name geometry material transform (Some modifiers)).

End Composer.

(* ------------------------------------------------------------------ *)
(** ** Blueprint assembly *)

(** What a call does: it returns a blueprint, or it throws the [TypeError]
    of reading [theme.palette] on an [undefined] theme. *)
Inductive Outcome : Type :=
| Returned (spec : ProceduralModelSpec.t)
| TypeError.

Section Assembler.

Local Open Scope string_scope.
Local Open Scope gen_scope.

(** [prompt?.trim().length ? prompt : 'abstract artifact'] *)
Definition fallbackPrompt (prompt : option string) : string :=
  match prompt with
  | Some p => if (0 <? Z.of_nat (String.length (JS.trim p)))%Z then p
              else "abstract artifact"
  | None => "abstract artifact"
  end.

(** [for (let i = 0; i < clampedMeshCount; i++) meshes.push(...)], with
    [remaining] iterations to go from index [i]. *)
Fixpoint composeMeshes (remaining : nat) (i : Z) (theme : ThemePreset.t)
         (prompt : string) (context : DescriptorContext.t)
  : Gen (list MeshDescriptor.t) :=
  match remaining with
  | O => ret []
  | S remaining' =>
      mesh <- createMeshDescriptor theme prompt i context ;;
      rest <- composeMeshes remaining' (i + 1) theme prompt context ;;
      ret (mesh :: rest)
  end.

(** [hints.meshTarget ?? (2 + Math.floor(rand() * 3))] *)
Definition meshCount (hints : PromptHints.t) : Gen Z :=
  match PromptHints.meshTarget hints with
  | Some target => ret target
  | None => i <- randomIndex 3 ;; ret (2 + i)%Z
  end.

(** The part of [generateModelSpec] after the template check. *)
Definition composeGeneric (prompt : string) (seed : Z) (hints : PromptHints.t)
  : Gen Outcome :=
  picked <- pickTheme prompt (Some hints) ;;
  match picked with
  | None => ret TypeError
  | Some theme =>
      let (palette, accentColor) := resolvePalette theme hints in
      let environment :=
        JS.nullish (PromptHints.environmentHint hints) (ThemePreset.environment theme) in
      count <- meshCount hints ;;
      let clampedMeshCount := clampZ count 1 4 in
      let context :=
        DescriptorContext.mk palette accentColor
          (PromptHints.geometryPreference hints) (PromptHints.detailBias hints) in
      meshes <- composeMeshes (Z.to_nat clampedMeshCount) 0 theme prompt context ;;
      ret (Returned
             (ProceduralModelSpec.mk prompt seed environment (Some accentColor) meshes))
  end.

Definition generateModelSpec (prompt : option string) : Outcome :=
  let fallback := fallbackPrompt prompt in
  let seed := createSeed fallback in
  let rand0 := createGenerator seed in
  let hints := analyzePromptHints fallback in
  match tryTemplateSpec fallback hints seed with
  | Some templateSpec => Returned templateSpec
  | None => fst (composeGeneric fallback seed hints rand0)
  end.

End Assembler.

(* ------------------------------------------------------------------ *)
(** ** The server: prompt enhancement and the two routes *)

Section Server.

Local Open Scope string_scope.

(** [s.replace(/\s+/g, ' ')]: every run of white space becomes one space;
    [inRun] tells that the previous character was white space. *)
Fixpoint collapseWhiteSpace (inRun : bool) (s : string) : string :=
  match s with
  | EmptyString => EmptyString
  | String c t =>
      if JS.isWhiteSpace c
      then if inRun then collapseWhiteSpace true t
           else String " " (collapseWhiteSpace true t)
      else String c (collapseWhiteSpace false t)
  end.

(** [s.endsWith('.')]. *)
Fixpoint endsWithDot (s : string) : bool :=
  match s with
  | EmptyString => false
  | String c EmptyString => Ascii.eqb c "."%char
  | String _ t => endsWithDot t
  end.

Definition enhancementDefault : string :=
  "High fidelity 3D asset. Emphasize accurate proportions, realistic PBR materials, and cinematic lighting.".

Definition enhancementSuffix : string :=
  " Ensure accurate proportions, purposeful detailing, physically based materials, and dramatic but believable lighting.".

Definition buildLocalPromptEnhancement (prompt : string) : string :=
  let cleaned := JS.trim (collapseWhiteSpace false prompt) in
  if negb (JS.truthy cleaned) then enhancementDefault
  else
    let base := if endsWithDot cleaned then cleaned else cleaned ++ "." in
    base ++ enhancementSuffix.

(** Truthiness of an optional string: [undefined] and the empty string are
    falsy. *)
Definition provided (v : option string) : bool :=
  match v with Some s => JS.truthy s | None => false end.

(** An optional string inside a template literal. *)
Definition interpolate (v : option string) : string := JS.nullish v "undefined".



Inductive GenerateReply : Type :=
| Generated (textureDataUrl : option string) (modelSpec : ProceduralModelSpec.t)
| GenerateRejected (status : Z) (error : string).


Definition emDash : string :=
  String "226"%char (String "128"%char (String "148"%char EmptyString)).

(** The two calls to the inference service are the environment of the
    routes: [None] stands for a call that throws. *)
Variable callHuggingFaceText : string -> option string.
Variable callHuggingFaceImage : string -> option string -> option string.


(** [app.post('/api/generate-model', ...)]: the outer [catch] answers 500
    when [generateModelSpec] throws; the inner one keeps [null] for the
    texture. *)
Definition generateModelRoute (prompt referenceImageBase64 : option string)
  : GenerateReply :=
  if negb (provided prompt) && negb (provided referenceImageBase64)
  then GenerateRejected 400 "Prompt or reference image is required"
  else
    match generateModelSpec prompt with
    | TypeError =>
        GenerateRejected 500 "Failed to generate 3D assets using Hugging Face model"
    | Returned modelSpec =>
        let combinedPrompt :=
          if provided referenceImageBase64
          then "Use the provided reference image to craft a rich, detailed texture map for "
                 ++ interpolate prompt
                 ++ ". Preserve distinctive colors, highlights, and shadows so it looks dynamic once wrapped on 3D geometry."
          else "Create a photorealistic, front-facing render of "
                 ++ interpolate prompt
                 ++ " with bold lighting, visible highlights and shadows, and lots of surface detail. Avoid plain backgrounds"
                 ++ emDash
                 ++ "make sure the subject fills the frame so the texture looks interesting when wrapped around a 3D mesh." in
        Generated (callHuggingFaceImage combinedPrompt referenceImageBase64) modelSpec
    end.

End Server.

(* ------------------------------------------------------------------ *)
(** ** Vocabulary of the properties *)

Section Vocabulary.

Local Open Scope string_scope.

(** From a state in the invariant [Inv], [c] yields a result in [P] and a
    state in [Inv]. *)
Definition yields (Inv : Z -> Prop) {A : Type} (c : Gen A) (P : A -> Prop) : Prop :=
  forall value, Inv value -> P (fst (c value)) /\ Inv (snd (c value)).

(** A state from which every later state is in 1 .. 2147483646. *)
Definition live (value : Z) : Prop := 0 <= value /\ value mod modulus <> 0.

(** Where a draw must lie. *)
Definition unit_interval (r : Q) : Prop := (0 <= r /\ r < 1)%Q.

(** The ranges of the geometry parameters, kind by kind. *)
Definition geometry_in_range (g : GeometrySpec) : Prop :=
  (match g with
  | SphereGeometry radius widthSegments heightSegments =>
      (1.1 <= radius /\ radius <= 1.8)
      /\ (32 <= widthSegments < 48)%Z /\ (32 <= heightSegments < 48)%Z
  | BoxGeometry width height depth =>
      (1 <= width /\ width <= 2.2) /\ (1 <= height /\ height <= 1.6)
      /\ (1 <= depth /\ depth <= 2)
  | TorusGeometry radius tube _ _ _ =>
      (1.2 <= radius /\ radius <= 1.9) /\ (0.2 <= tube /\ tube <= 0.5)
  | CylinderGeometry _ _ height _ _ _ => 2 <= height /\ height <= 3.2
  | ConeGeometry _ height _ _ => 1.4 <= height /\ height <= 2.4
  | IcosahedronGeometry radius detail =>
      (1.2 <= radius /\ radius <= 1.7) /\ (detail = 0 \/ detail = 1)%Z
  end)%Q.

Definition material_in_range (m : MaterialSpec.t) : Prop :=
  ((0 <= MaterialSpec.metalness m /\ MaterialSpec.metalness m <= 1)
   /\ (0 <= MaterialSpec.roughness m /\ MaterialSpec.roughness m <= 1))%Q.

Definition mesh_in_range (mesh : MeshDescriptor.t) : Prop :=
  geometry_in_range (MeshDescriptor.geometry mesh)
  /\ material_in_range (MeshDescriptor.material mesh).

Definition identityTransform : MeshTransform.t :=
  MeshTransform.mk (0, 0, 0)%Q (0, 0, 0)%Q (1, 1, 1)%Q.

(** Whether the template short-circuit returns. *)
Definition takesTemplatePath (prompt : option string) : bool :=
  let fallback := fallbackPrompt prompt in
  match tryTemplateSpec fallback (analyzePromptHints fallback) (createSeed fallback) with
  | Some _ => true
  | None => false
  end.

(** Two meshes agree on every field. *)
Definition same_mesh (m1 m2 : MeshDescriptor.t) : Prop :=
  MeshDescriptor.id m1 = MeshDescriptor.id m2
  /\ MeshDescriptor.name m1 = MeshDescriptor.name m2
  /\ MeshDescriptor.geometry m1 = MeshDescriptor.geometry m2
  /\ MeshDescriptor.material m1 = MeshDescriptor.material m2
  /\ MeshDescriptor.transform m1 = MeshDescriptor.transform m2
  /\ MeshDescriptor.modifiers m1 = MeshDescriptor.modifiers m2.

(** The prompt of the specification: trimmed, and replaced when empty. *)
Definition trimmedPrompt (prompt : option string) : string :=
  match prompt with
  | Some p => match JS.trim p with
              | "" => "abstract artifact"
              | trimmed => trimmed
              end
  | None => "abstract artifact"
  end.

(** The first [n] draws of a generator. *)
Fixpoint draws (n : nat) : Gen (list Q) :=
  match n with
  | O => ret []
  | S n' => bind rand (fun r => bind (draws n') (fun rest => ret (r :: rest)))
  end.

End Vocabulary.

(* ------------------------------------------------------------------ *)
(** ** Ranges of the parts of a mesh *)

Section PartRanges.

Local Open Scope Q_scope.

(** The [type] field of a geometry. *)
Definition geometryType (g : GeometrySpec) : GeometryKind :=
  match g with
  | SphereGeometry _ _ _ => sphere
  | BoxGeometry _ _ _ => box
  | TorusGeometry _ _ _ _ _ => torus
  | CylinderGeometry _ _ _ _ _ _ => cylinder
  | ConeGeometry _ _ _ _ => cone
  | IcosahedronGeometry _ _ => icosahedron
  end.

(** The parameters that make a primitive a solid: positive sizes, a tube
    thinner than its ring, enough segments. *)
Definition geometry_solid (g : GeometrySpec) : Prop :=
  match g with
  | SphereGeometry radius widthSegments heightSegments =>
      0 < radius /\ (3 <= widthSegments)%Z /\ (2 <= heightSegments)%Z
  | BoxGeometry width height depth => 0 < width /\ 0 < height /\ 0 < depth
  | TorusGeometry radius tube radialSegments tubularSegments arc =>
      (0 < tube /\ tube < radius)
      /\ (16 <= radialSegments < 32)%Z /\ (48 <= tubularSegments < 80)%Z
      /\ arc == JS.PI * 2
  | CylinderGeometry radiusTop radiusBottom height radialSegments heightSegments openEnded =>
      (0.5 <= radiusTop /\ radiusTop <= 1.2)
      /\ (0.8 <= radiusBottom /\ radiusBottom <= 1.5)
      /\ 0 < height
      /\ (32 <= radialSegments < 48)%Z /\ (1 <= heightSegments <= 3)%Z
      /\ openEnded = false
  | ConeGeometry radius height radialSegments heightSegments =>
      (0.7 <= radius /\ radius <= 1.4) /\ 0 < height
      /\ (32 <= radialSegments < 48)%Z /\ (1 <= heightSegments <= 2)%Z
  | IcosahedronGeometry radius detail => 0 < radius /\ (0 <= detail)%Z
  end.

(** Where a secondary mesh may be put. *)
Definition transform_in_range (t : MeshTransform.t) : Prop :=
  let '(px, py, pz) := MeshTransform.position t in
  let '(rx, ry, rz) := MeshTransform.rotation t in
  let '(sx, sy, sz) := MeshTransform.scale t in
  ((- 1.2 <= px /\ px <= 1.2) /\ (- 0.2 <= py /\ py <= 1.2)
   /\ (- 1.1 <= pz /\ pz <= 1.1))
  /\ ((- 0.4 <= rx /\ rx <= 0.4) /\ (0 <= ry /\ ry <= JS.PI * 2)
      /\ (- 0.4 <= rz /\ rz <= 0.4))
  /\ ((0.45 <= sx /\ sx <= 0.9) /\ (0.45 <= sy /\ sy <= 0.9)
      /\ (0.45 <= sz /\ sz <= 0.9)).

(** Every deformation is present and small: the viewer multiplies heights
    by [1 + sin(..) * squash] and widths by
    [1 - taperStrength * (t - 0.5)] with [t] in [0, 1]. *)
Definition modifiers_in_range (m : MeshModifiers.t) : Prop :=
  (exists a, MeshModifiers.noiseAmplitude m = Some a /\ 0 < a /\ a < 1)
  /\ (exists f, MeshModifiers.noiseFrequency m = Some f /\ 0 < f /\ f < 4)
  /\ (exists o, MeshModifiers.noiseOffset m = Some o /\ 0 <= o /\ o < JS.PI * 2)
  /\ (exists t, MeshModifiers.twistStrength m = Some t /\ 0 < t /\ t < 1)
  /\ (exists p, MeshModifiers.taperStrength m = Some p /\ 0 < p /\ p < 1)
  /\ (exists s, MeshModifiers.squash m = Some s /\ 0 < s /\ s < 1).

End PartRanges.

(* ------------------------------------------------------------------ *)
(** ** Shapes of ids, names, palettes and prompts *)

Section Shapes.

Local Open Scope string_scope.
Local Open Scope Z_scope.

(** Eight 32-bit words. *)
Definition word_list (l : list Z) : Prop :=
  List.length l = 8%nat /\ Forall (fun w => 0 <= w < SHA256.w32) l.

(** The colours a prompt names, in the order of [COLOR_KEYWORDS]. *)
Definition hintedColours (prompt : string) : list string :=
  List.map fst
    (List.filter (fun entry => includesAny (JS.toLowerCase prompt) (snd entry))
                 COLOR_KEYWORDS).

(** The print of a kind in a template literal. *)
Definition kindLabel (kind : option GeometryKind) : string :=
  JS.nullish (option_map kindName kind) "undefined".

(** [holds_from Q i l]: the meshes of [l] satisfy [Q] at the indices
    [i], [i + 1], ... *)
Fixpoint holds_from (Q : Z -> MeshDescriptor.t -> Prop) (i : Z)
         (l : list MeshDescriptor.t) : Prop :=
  match l with
  | [] => True
  | mesh :: rest => Q i mesh /\ holds_from Q (i + 1) rest
  end.

(** The palette [createMeshDescriptor] reads. *)
Definition meshPalette (theme : ThemePreset.t) (context : DescriptorContext.t)
  : list string :=
  if 0 <? JS.len (DescriptorContext.palette context)
  then DescriptorContext.palette context else ThemePreset.palette theme.

(** The last part of a mesh name. *)
Definition nameSuffix (prompt : string) (index : Z) : string :=
  if index =? 0 then "Prime"
  else JS.nullish (List.find JS.truthy (JS.split_space prompt)) "Artifact".

(** What every mesh of the generic path looks like, whatever the state of
    the generator: the format of id and name, the palette entry, and the
    fields that depend on the index only. *)
Definition mesh_shape (theme : ThemePreset.t) (prompt : string)
           (context : DescriptorContext.t) (index : Z) (mesh : MeshDescriptor.t)
  : Prop :=
  let material := MeshDescriptor.material mesh in
  (exists kind suffix prefix,
      MeshDescriptor.id mesh
      = kindLabel kind ++ "-" ++ JS.string_of_Z index ++ "-" ++ JS.string_of_Z suffix
      /\ MeshDescriptor.name mesh
         = JS.nullish prefix "undefined" ++ "-"
             ++ JS.nullish (option_map geometryTitles kind) "Element" ++ "-"
             ++ nameSuffix prompt index
      /\ geometryType (MeshDescriptor.geometry mesh) = JS.nullish kind icosahedron)
  /\ (exists chosen,
         0 <= chosen <= Z.max 0 (JS.len (meshPalette theme context) - 1)
         /\ (index = 0 -> chosen = 0)
         /\ MaterialSpec.color material
            = match JS.at_ (meshPalette theme context) chosen with
              | Some c => Some c
              | None => JS.at_ (ThemePreset.palette theme) 0
              end)
  /\ MaterialSpec.emissive material
     = (if index =? 0 then Some (DescriptorContext.accentColor context) else None)
  /\ MaterialSpec.useTexture material = (index =? 0)
  /\ (index <= 0 -> MaterialSpec.wireframe material = false)
  /\ MeshDescriptor.modifiers mesh <> None.

(** The character after the first dash of an id. *)
Fixpoint afterDash (s : string) : option ascii :=
  match s with
  | EmptyString => None
  | String c t =>
      if Ascii.eqb c "-"%char
      then match t with String d _ => Some d | EmptyString => None end
      else afterDash t
  end.

(** The sixth character of an id. *)
Definition sixth (s : string) : option ascii := String.get 5 s.

(** [n] spaces. *)
Fixpoint spaces (n : nat) : string :=
  match n with O => "" | S m => String " " (spaces m) end.

(** No character of [s] is the space. *)
Fixpoint spaceless (s : string) : bool :=
  match s with
  | EmptyString => true
  | String c t => negb (Ascii.eqb c " "%char) && spaceless t
  end.

(** What a mesh made from a live generator state looks like: kind, id and
    name agree, and every part is in its range. *)
Definition mesh_consistent (theme : ThemePreset.t) (prompt : string)
           (context : DescriptorContext.t) (index : Z) (mesh : MeshDescriptor.t)
  : Prop :=
  let kind := geometryType (MeshDescriptor.geometry mesh) in
  In kind (geometryPool theme index context)
  /\ geometry_solid (MeshDescriptor.geometry mesh)
  /\ (exists suffix,
         0 <= suffix <= 1000000
         /\ MeshDescriptor.id mesh
            = kindName kind ++ "-" ++ JS.string_of_Z index ++ "-" ++ JS.string_of_Z suffix)
  /\ (exists prefix,
         In prefix vectorNameSeeds
         /\ MeshDescriptor.name mesh
            = prefix ++ "-" ++ geometryTitles kind ++ "-" ++ nameSuffix prompt index)
  /\ (index <> 0 -> transform_in_range (MeshDescriptor.transform mesh))
  /\ (exists m, MeshDescriptor.modifiers mesh = Some m /\ modifiers_in_range m)
  /\ (index <> 0 -> 2 <= JS.len (meshPalette theme context) ->
      exists chosen,
        1 <= chosen < JS.len (meshPalette theme context)
        /\ MaterialSpec.color (MeshDescriptor.material mesh)
           = JS.at_ (meshPalette theme context) chosen).

(** The colour of the handle, from the colours a prompt names. *)
Definition gripColour (hinted : list string) : string :=
  match hinted with
  | [] => "#1f1f1f"
  | [_] => "#171717"
  | _ :: second :: _ => second
  end.

(** The words of a text: its maximal runs of characters other than white
    space. *)
Fixpoint wsWords (s : string) : list string :=
  match s with
  | EmptyString => []
  | String c t =>
      if JS.isWhiteSpace c then wsWords t
      else match t with
           | EmptyString => [String c EmptyString]
           | String d _ =>
               if JS.isWhiteSpace d then String c EmptyString :: wsWords t
               else match wsWords t with
                    | w :: ws => String c w :: ws
                    | [] => [String c EmptyString]
                    end
           end
  end.

(** [words.join(' ')]. *)
Fixpoint joinSpace (words : list string) : string :=
  match words with
  | [] => EmptyString
  | [w] => w
  | w :: ws => w ++ " " ++ joinSpace ws
  end.

(** The space [collapseWhiteSpace false] puts in front of the words. *)
Definition leadSpace (s : string) : string :=
  match s, wsWords s with
  | String c _, _ :: _ => if JS.isWhiteSpace c then " " else EmptyString
  | _, _ => EmptyString
  end.

End Shapes.

(* ------------------------------------------------------------------ *)
(** ** The digest on known messages *)

Example sha256_abc :
  SHA256.hexdigest "abc"
  = "ba7816bf8f01cfea414140de5dae2223b00361a396177a9cb410ff61f20015ad"%string.
Proof. vm_compute. reflexivity. Qed.

Example sha256_empty :
  SHA256.hexdigest ""
  = "e3b0c44298fc1c149afbf4c8996fb92427ae41e4649b934ca495991b7852b855"%string.
Proof. vm_compute. reflexivity. Qed.

(** A message of 56 bytes takes two blocks. *)
Example sha256_two_blocks :
  SHA256.hexdigest "abcdbcdecdefdefgefghfghighijhijkijkljklmklmnlmnomnopnopq"
  = "248d6a61d20638b8e5c026930c3e6039a33ce45964ff2167f6ecedd419db06c1"%string.
Proof. vm_compute. reflexivity. Qed.

Example createSeed_default : createSeed "abstract artifact" = 0xb9bf7041.
Proof. vm_compute. reflexivity. Qed.

(* ------------------------------------------------------------------ *)
(** ** Reasoning about computations that draw *)

Section Triples.

(** An invariant of the generator state. *)
Variable Inv : Z -> Prop.

Lemma yields_ret {A : Type} (a : A) (P : A -> Prop) : P a -> yields Inv (ret a) P.
Proof. intros HP value Hv. split; assumption. Qed.

Lemma yields_bind {A B : Type} (c : Gen A) (k : A -> Gen B)
      (P : A -> Prop) (R : B -> Prop) :
  yields Inv c P -> (forall a, P a -> yields Inv (k a) R) -> yields Inv (bind c k) R.
Proof.
  intros Hc Hk value Hv. unfold bind.
  destruct (Hc value Hv) as [Ha Hs].
  destruct (c value) as [a value']. simpl in Ha, Hs.
  exact (Hk a Ha value' Hs).
Qed.

Lemma yields_weaken {A : Type} (c : Gen A) (P R : A -> Prop) :
  yields Inv c P -> (forall a, P a -> R a) -> yields Inv c R.
Proof.
  intros Hc HPR value Hv. destruct (Hc value Hv). split; auto.
Qed.

End Triples.

Lemma rand_state (value : Z) :
  0 <= value -> snd (rand value) = (value * 16807) mod modulus.
Proof.
  intros H. unfold rand, modulus. simpl snd.
  apply Z.rem_mod_nonneg; lia.
Qed.

Lemma rand_draw (value : Z) :
  fst (rand value) = ((snd (rand value) - 1) # 2147483646)%Q.
Proof. reflexivity. Qed.

Lemma live_next (value : Z) :
  live value -> 0 < snd (rand value) < modulus.
Proof.
  intros [H0 Hm]. rewrite rand_state by assumption.
  assert (Hb : 0 <= (value * 16807) mod modulus < modulus)
    by (apply Z.mod_pos_bound; unfold modulus; lia).
  destruct (Z.eq_dec ((value * 16807) mod modulus) 0) as [E | E]; [| lia].
  exfalso. apply Hm.
  apply Z.mod_divide in E; [| unfold modulus; lia].
  apply Z.mod_divide; [unfold modulus; lia |].
  apply Z.gauss with (m := 16807).
  - rewrite Z.mul_comm. exact E.
  - vm_compute. reflexivity.
Qed.

Lemma rand_live (value : Z) :
  live value ->
  (0 <= fst (rand value) /\ fst (rand value) < 1)%Q /\ live (snd (rand value)).
Proof.
  intros Hl. pose proof (live_next value Hl) as Hn.
  rewrite rand_draw. unfold modulus in Hn.
  repeat split.
  - unfold Qle. cbn [Qnum Qden]. lia.
  - unfold Qlt. cbn [Qnum Qden]. lia.
  - lia.
  - rewrite Z.mod_small by (unfold modulus; lia). lia.
Qed.

(** From a state that is a multiple of 2147483647 the next state is 0 and
    the draw is negative. *)
Lemma rand_dead (value : Z) :
  0 <= value -> value mod modulus = 0 ->
  rand value = ((-1 # 2147483646)%Q, 0).
Proof.
  intros H0 Hm.
  assert (E : snd (rand value) = 0).
  { rewrite rand_state by assumption.
    rewrite <- Z.mul_mod_idemp_l by (unfold modulus; lia).
    rewrite Hm. reflexivity. }
  pose proof (rand_draw value) as Hd. rewrite E in Hd.
  destruct (rand value) as [r v]. simpl in *. subst. reflexivity.
Qed.

Lemma yields_rand : yields live rand unit_interval.
Proof. intros value Hl. exact (rand_live value Hl). Qed.

Lemma yields_randomRange (min max : Q) :
  (min <= max)%Q ->
  yields live (randomRange min max) (fun x => (min <= x /\ x <= max)%Q).
Proof.
  intros Hmm. unfold randomRange.
  apply yields_bind with (P := unit_interval); [exact yields_rand |].
  intros r [Hr0 Hr1]. apply yields_ret. split; nra.
Qed.

Lemma floor_scaled (r : Q) (n : Z) :
  unit_interval r -> 0 < n -> 0 <= JS.floor (r * inject_Z n) < n.
Proof.
  intros [Hr0 Hr1] Hn. unfold JS.floor.
  assert (HnQ : (0 < inject_Z n)%Q) by (change 0%Q with (inject_Z 0); rewrite <- Zlt_Qlt; lia).
  split.
  - rewrite <- (Qfloor_Z 0). apply Qfloor_resp_le. change (inject_Z 0) with 0%Q. nra.
  - rewrite Zlt_Qlt. apply Qle_lt_trans with (y := (r * inject_Z n)%Q).
    + apply Qfloor_le.
    + nra.
Qed.

Lemma yields_randomIndex (n : Z) :
  0 < n -> yields live (randomIndex n) (fun i => 0 <= i < n).
Proof.
  intros Hn. unfold randomIndex.
  apply yields_bind with (P := unit_interval); [exact yields_rand |].
  intros r Hr. apply yields_ret. apply floor_scaled; assumption.
Qed.

Lemma yields_randomIndex_live (n : Z) : yields live (randomIndex n) (fun _ => True).
Proof.
  unfold randomIndex.
  apply yields_bind with (P := unit_interval); [exact yields_rand |].
  intros r _. apply yields_ret. exact I.
Qed.

Lemma yields_rand_map {A : Type} (f : Q -> A) :
  yields live (bind rand (fun r => ret (f r))) (fun _ => True).
Proof.
  apply yields_bind with (P := unit_interval); [exact yields_rand |].
  intros r _. apply yields_ret. exact I.
Qed.

(** Without an invariant only what the last step fixes is known. *)
Lemma yields_top {A : Type} (c : Gen A) : yields (fun _ => True) c (fun _ => True).
Proof. intros value _. split; exact I. Qed.

Create HintDb gen discriminated.

(** One [bind]: the drawing step by the lemma that fits it, then the rest. *)
Ltac step :=
  eapply yields_bind;
  [ first [ apply yields_randomRange; unfold JS.PI; lra
          | apply yields_randomIndex; reflexivity
          | apply yields_randomIndex_live
          | apply yields_rand
          | apply yields_rand_map
          | solve [eauto with gen] ]
  | cbv beta; intros ? ? ].

(* ------------------------------------------------------------------ *)
(** ** Ranges of the generated parameters *)

Section Ranges.

Local Open Scope Q_scope.

Lemma clamp_unit (x : Q) : 0 <= clamp x 0 1 /\ clamp x 0 1 <= 1.
Proof.
  unfold clamp.
  destruct (Q.max_spec 0 x) as [[H1 E1] | [H1 E1]];
    destruct (Q.min_spec 1 (Qmax 0 x)) as [[H2 E2] | [H2 E2]];
    rewrite E2; try rewrite E1; try rewrite E1 in H2; split; lra.
Qed.

Lemma createGeometry_range (kind : option GeometryKind) :
  yields live (createGeometry kind) geometry_in_range.
Proof.
  destruct kind as [[] |]; unfold createGeometry;
    repeat step; apply yields_ret; unfold geometry_in_range;
    repeat split; try tauto; try lia.
Qed.

End Ranges.

(* ------------------------------------------------------------------ *)
(** ** One mesh *)

Section Mesh.

Variables (theme : ThemePreset.t) (prompt : string) (context : DescriptorContext.t).

Lemma createTransform_live (index : Z) :
  yields live (createTransform index) (fun _ => True).
Proof.
  unfold createTransform. destruct (index =? 0).
  - apply yields_ret. exact I.
  - repeat step. apply yields_ret. exact I.
Qed.

Lemma geometryKind_live (index : Z) :
  yields live (geometryKind theme index context) (fun _ => True).
Proof.
  unfold geometryKind. step.
  destruct (JS.at_ _ _).
  - apply yields_ret. exact I.
  - step. apply yields_ret. exact I.
Qed.

Lemma paletteIndex_live (palette : list string) (index : Z) :
  yields live (paletteIndex palette index) (fun _ => True).
Proof.
  unfold paletteIndex.
  apply yields_bind with (P := fun _ => True).
  - destruct ((index =? 0) || (JS.len palette =? 1)).
    + apply yields_ret. exact I.
    + step. apply yields_ret. exact I.
  - intros. apply yields_ret. exact I.
Qed.

Lemma createModifiers_live (bias : DetailBias) :
  yields live (createModifiers theme bias) (fun _ => True).
Proof. unfold createModifiers. repeat step. apply yields_ret. exact I. Qed.

Lemma createMaterial_range (palette : list string) (chosen index : Z) :
  yields live (createMaterial theme palette chosen index context) material_in_range.
Proof.
  unfold createMaterial.
  apply yields_bind with (P := fun _ => True).
  - destruct (0 <? index).
    + step. apply yields_ret. exact I.
    + apply yields_ret. exact I.
  - intros wire _. apply yields_ret. split; apply clamp_unit.
Qed.

Lemma createMeshName_live (kind : option GeometryKind) (index : Z) :
  yields live (createMeshName prompt kind index) (fun _ => True).
Proof. unfold createMeshName. step. apply yields_ret. exact I. Qed.

Hint Resolve createTransform_live geometryKind_live paletteIndex_live
     createModifiers_live createMaterial_range createMeshName_live
     createGeometry_range : gen.

Lemma createMeshDescriptor_range (index : Z) :
  yields live (createMeshDescriptor theme prompt index context) mesh_in_range.
Proof.
  unfold createMeshDescriptor. repeat step.
  apply yields_ret. split; assumption.
Qed.

(** The material is clamped whatever the generator does. *)
Lemma createMeshDescriptor_material (index value : Z) :
  material_in_range
    (MeshDescriptor.material (fst (createMeshDescriptor theme prompt index context value))).
Proof.
  revert value.
  enough (H : yields (fun _ => True) (createMeshDescriptor theme prompt index context)
                     (fun mesh => material_in_range (MeshDescriptor.material mesh)))
    by (intros value; exact (proj1 (H value I))).
  unfold createMeshDescriptor.
  do 5 (eapply yields_bind; [apply yields_top | cbv beta; intros ? _]).
  apply yields_bind with (P := material_in_range).
  - unfold createMaterial.
    eapply yields_bind; [apply yields_top | cbv beta; intros ? _].
    apply yields_ret. split; apply clamp_unit.
  - intros material Hm.
    do 2 (eapply yields_bind; [apply yields_top | cbv beta; intros ? _]).
    apply yields_ret. exact Hm.
Qed.

(** The primary mesh is not moved, whatever the generator does. *)
Lemma createMeshDescriptor_primary (value : Z) :
  MeshDescriptor.transform (fst (createMeshDescriptor theme prompt 0 context value))
  = identityTransform.
Proof.
  revert value.
  enough (H : yields (fun _ => True) (createMeshDescriptor theme prompt 0 context)
                     (fun mesh => MeshDescriptor.transform mesh = identityTransform))
    by (intros value; exact (proj1 (H value I))).
  unfold createMeshDescriptor.
  do 2 (eapply yields_bind; [apply yields_top | cbv beta; intros ? _]).
  apply yields_bind with (P := fun t => t = identityTransform).
  - apply yields_ret. reflexivity.
  - intros transform ->.
    do 5 (eapply yields_bind; [apply yields_top | cbv beta; intros ? _]).
    apply yields_ret. reflexivity.
Qed.

Lemma composeMeshes_length (remaining : nat) (i value : Z) :
  List.length (fst (composeMeshes remaining i theme prompt context value)) = remaining.
Proof.
  revert i value. induction remaining as [| n IH]; intros i value.
  - reflexivity.
  - cbn [composeMeshes]. unfold bind.
    destruct (createMeshDescriptor theme prompt i context value) as [mesh v1].
    specialize (IH (i + 1) v1).
    destruct (composeMeshes n (i + 1) theme prompt context v1) as [rest v2].
    simpl in *. now rewrite IH.
Qed.

Lemma composeMeshes_head (remaining : nat) (value : Z) :
  exists rest,
    fst (composeMeshes (S remaining) 0 theme prompt context value)
    = fst (createMeshDescriptor theme prompt 0 context value) :: rest.
Proof.
  cbn [composeMeshes]. unfold bind.
  destruct (createMeshDescriptor theme prompt 0 context value) as [mesh v1].
  destruct (composeMeshes remaining (0 + 1) theme prompt context v1) as [rest v2].
  exists rest. reflexivity.
Qed.

Lemma composeMeshes_material (remaining : nat) (i value : Z) :
  Forall (fun mesh => material_in_range (MeshDescriptor.material mesh))
         (fst (composeMeshes remaining i theme prompt context value)).
Proof.
  revert i value. induction remaining as [| n IH]; intros i value.
  - constructor.
  - cbn [composeMeshes]. unfold bind.
    pose proof (createMeshDescriptor_material i value) as Hm.
    destruct (createMeshDescriptor theme prompt i context value) as [mesh v1].
    specialize (IH (i + 1) v1).
    destruct (composeMeshes n (i + 1) theme prompt context v1) as [rest v2].
    simpl in *. constructor; assumption.
Qed.

Lemma composeMeshes_range (remaining : nat) (i : Z) :
  yields live (composeMeshes remaining i theme prompt context) (Forall mesh_in_range).
Proof.
  revert i. induction remaining as [| n IH]; intros i; cbn [composeMeshes].
  - apply yields_ret. constructor.
  - apply yields_bind with (P := mesh_in_range);
      [apply createMeshDescriptor_range |].
    intros mesh Hmesh.
    apply yields_bind with (P := Forall mesh_in_range); [apply IH |].
    intros rest Hrest. apply yields_ret. constructor; assumption.
Qed.

End Mesh.

(* ------------------------------------------------------------------ *)
(** ** Keyword matching *)

Section Matching.

Local Open Scope string_scope.

Lemma prefix_append (term text : string) :
  String.prefix term text = true <-> exists post, text = term ++ post.
Proof.
  revert text. induction term as [| c term IH]; intros text.
  - split; [intros _; exists text; reflexivity | intros _; now destruct text].
  - destruct text as [| d text]; simpl.
    + split; [discriminate | intros [post H]; discriminate].
    + destruct (ascii_dec c d) as [-> | Hne].
      * rewrite IH. split; intros [post H]; exists post.
        -- now rewrite H.
        -- now inversion H.
      * split; [discriminate | intros [post H]; inversion H; subst; now elim Hne].
Qed.

(** [includes] is containment as a contiguous run of characters. *)
Lemma includes_spec (text term : string) :
  JS.includes text term = true <-> exists pre post, text = pre ++ term ++ post.
Proof.
  induction text as [| c text IH].
  - cbn [JS.includes]. destruct (String.prefix term "") eqn:E.
    + apply prefix_append in E. destruct E as [post E].
      split; [intros _; exists "", post; exact E | reflexivity].
    + split; [discriminate |]. intros [pre [post H]].
      destruct pre; simpl in H.
      * assert (String.prefix term "" = true) by (apply prefix_append; eauto).
        congruence.
      * discriminate.
  - cbn [JS.includes]. destruct (String.prefix term (String c text)) eqn:E.
    + apply prefix_append in E. destruct E as [post E].
      split; [intros _; exists "", post; exact E | reflexivity].
    + rewrite IH. split.
      * intros [pre [post H]]. exists (String c pre), post. simpl. now rewrite H.
      * intros [pre [post H]]. destruct pre as [| d pre]; simpl in H.
        -- assert (String.prefix term (String c text) = true)
             by (apply prefix_append; eauto).
           congruence.
        -- inversion H. eauto.
Qed.

Lemma includesAny_spec (text : string) (terms : list string) :
  includesAny text terms = true
  <-> exists term, In term terms /\ JS.includes text term = true.
Proof. unfold includesAny. apply existsb_exists. Qed.

Lemma find_first {A : Type} (f : A -> bool) (l : list A) (x : A) :
  List.find f l = Some x ->
  exists before after,
    l = (before ++ x :: after)%list /\ f x = true
    /\ Forall (fun y => f y = false) before.
Proof.
  induction l as [| y l IH]; simpl; [discriminate |].
  destruct (f y) eqn:E.
  - intros H. inversion H; subst. exists [], l. repeat split; auto.
  - intros H. destruct (IH H) as [before [after [-> [Hx Hb]]]].
    exists (y :: before), after. repeat split; auto.
Qed.

Lemma find_is_some {A : Type} (f : A -> bool) (l : list A) :
  (exists x, In x l /\ f x = true) <-> List.find f l <> None.
Proof.
  split.
  - intros [x [Hin Hf]] Hnone.
    pose proof (List.find_none f l Hnone x Hin). congruence.
  - destruct (List.find f l) as [x |] eqn:E; [| congruence].
    intros _. exists x. apply (List.find_some f l E).
Qed.

End Matching.

(* ------------------------------------------------------------------ *)
(** ** The seed *)

Lemma hexValue_range (c : ascii) : 0 <= hexValue c <= 15.
Proof.
  unfold hexValue.
  destruct ((48 <=? _) && (_ <=? 57)) eqn:E1;
    [apply andb_prop in E1; lia |].
  destruct ((97 <=? _) && (_ <=? 102)) eqn:E2;
    [apply andb_prop in E2; lia |].
  destruct ((65 <=? _) && (_ <=? 70)) eqn:E3;
    [apply andb_prop in E3; lia | lia].
Qed.

Lemma parseInt16_range (s : string) :
  0 <= parseInt16 s < 16 ^ Z.of_nat (String.length s).
Proof.
  unfold parseInt16.
  enough (H : forall l acc, 0 <= acc ->
              0 <= List.fold_left (fun a c => a * 16 + hexValue c) l acc
              < (acc + 1) * 16 ^ Z.of_nat (List.length l)).
  { specialize (H (list_ascii_of_string s) 0 (Z.le_refl 0)).
    replace (List.length (list_ascii_of_string s)) with (String.length s) in H.
    - lia.
    - clear H. induction s; simpl; congruence. }
  induction l as [| c l IH]; intros acc Hacc.
  - simpl. lia.
  - cbn [List.fold_left List.length]. pose proof (hexValue_range c) as Hc.
    specialize (IH (acc * 16 + hexValue c) ltac:(lia)).
    rewrite Nat2Z.inj_succ, Z.pow_succ_r by lia.
    assert (0 < 16 ^ Z.of_nat (List.length l)) by (apply Z.pow_pos_nonneg; lia).
    nia.
Qed.

Lemma substring_length_le (n : nat) (s : string) :
  (String.length (String.substring 0 n s) <= n)%nat.
Proof.
  revert s. induction n as [| n IH]; intros s; destruct s; simpl; try lia.
  specialize (IH s). lia.
Qed.

(** The seed is a 32-bit unsigned integer. *)
Lemma createSeed_range (prompt : string) : 0 <= createSeed prompt < 2 ^ 32.
Proof.
  unfold createSeed.
  pose proof (parseInt16_range (String.substring 0 8 (SHA256.hexdigest prompt))) as H.
  pose proof (substring_length_le 8 (SHA256.hexdigest prompt)) as Hl.
  assert (16 ^ Z.of_nat (String.length (String.substring 0 8 (SHA256.hexdigest prompt)))
          <= 16 ^ 8) by (apply Z.pow_le_mono_r; lia).
  change (2 ^ 32) with (16 ^ 8). lia.
Qed.

(** The 32-bit seeds from which the generator is stuck at state 0. *)
Lemma dead_seeds (seed : Z) :
  0 <= seed < 2 ^ 32 ->
  (~ live seed <-> seed = 0 \/ seed = 2147483647 \/ seed = 4294967294).
Proof.
  intros Hs. unfold live, modulus. split.
  - intros Hn.
    destruct (Z.eq_dec (seed mod 2147483647) 0) as [E | E]; [| exfalso; apply Hn; lia].
    apply Z.mod_divide in E; [| lia]. destruct E as [k ->].
    assert (0 <= k <= 2) by lia. assert (k = 0 \/ k = 1 \/ k = 2) by lia. lia.
  - intros [-> | [-> | ->]] [_ H]; apply H; reflexivity.
Qed.

(* ------------------------------------------------------------------ *)
(** ** The two paths of [generateModelSpec] *)

Lemma at_in_range {A : Type} (l : list A) (i : Z) :
  0 <= i < JS.len l -> exists x, JS.at_ l i = Some x /\ In x l.
Proof.
  intros [H0 H1]. unfold JS.at_, JS.len in *.
  destruct (i <? 0) eqn:E; [lia |].
  destruct (nth_error l (Z.to_nat i)) as [x |] eqn:En.
  - exists x. split; [reflexivity | eapply nth_error_In; eassumption].
  - apply nth_error_None in En. lia.
Qed.

Lemma at_In {A : Type} (l : list A) (i : Z) (x : A) : JS.at_ l i = Some x -> In x l.
Proof.
  unfold JS.at_. destruct (i <? 0); [discriminate |]. apply nth_error_In.
Qed.

Section Paths.

Variable prompt : string.
Variable hints : PromptHints.t.

Lemma pickTheme_in (value : Z) (theme : ThemePreset.t) :
  fst (pickTheme prompt (Some hints) value) = Some theme -> In theme THEME_PRESETS.
Proof.
  unfold pickTheme.
  destruct (match PromptHints.preferredThemeId hints with
            | Some wanted => _ | None => None end) as [explicit |] eqn:E.
  - intros H. inversion H; subst.
    destruct (PromptHints.preferredThemeId hints) as [wanted |]; [| discriminate].
    destruct (JS.truthy wanted); [| discriminate].
    apply (List.find_some _ _ E).
  - destruct (List.find _ THEME_PRESETS) as [matched |] eqn:F.
    + intros H. inversion H; subst. apply (List.find_some _ _ F).
    + unfold bind, ret. destruct (rand value) as [r v]. cbn [fst]. apply at_In.
Qed.

Lemma pickTheme_live :
  yields live (pickTheme prompt (Some hints)) (fun picked => picked <> None).
Proof.
  unfold pickTheme.
  destruct (match PromptHints.preferredThemeId hints with
            | Some wanted => _ | None => None end) as [explicit |].
  - apply yields_ret. discriminate.
  - destruct (List.find _ THEME_PRESETS) as [matched |].
    + apply yields_ret. discriminate.
    + apply yields_bind with (P := unit_interval); [exact yields_rand |].
      intros r Hr. apply yields_ret.
      destruct (at_in_range THEME_PRESETS
                  (JS.floor (r * inject_Z (JS.len THEME_PRESETS)))) as [x [E _]].
      * apply floor_scaled; [assumption | reflexivity].
      * rewrite E. discriminate.
Qed.

Lemma meshCount_live : yields live (meshCount hints) (fun _ => True).
Proof.
  unfold meshCount. destruct (PromptHints.meshTarget hints).
  - apply yields_ret. exact I.
  - step. apply yields_ret. exact I.
Qed.

Variable seed : Z.

(** What a returned generic blueprint is made of. *)
Lemma composeGeneric_returned (value : Z) (spec : ProceduralModelSpec.t) :
  fst (composeGeneric prompt seed hints value) = Returned spec ->
  exists theme value1,
    pickTheme prompt (Some hints) value = (Some theme, value1)
    /\ In theme THEME_PRESETS
    /\ spec =
       ProceduralModelSpec.mk prompt seed
         (JS.nullish (PromptHints.environmentHint hints) (ThemePreset.environment theme))
         (Some (snd (resolvePalette theme hints)))
         (fst (composeMeshes
                 (Z.to_nat (clampZ (fst (meshCount hints value1)) 1 4)) 0 theme prompt
                 (DescriptorContext.mk
                    (fst (resolvePalette theme hints)) (snd (resolvePalette theme hints))
                    (PromptHints.geometryPreference hints)
                    (PromptHints.detailBias hints))
                 (snd (meshCount hints value1)))).
Proof.
  unfold composeGeneric, bind.
  pose proof (pickTheme_in value) as Hin.
  destruct (pickTheme prompt (Some hints) value) as [[theme |] value1];
    [| cbn; discriminate].
  specialize (Hin theme eq_refl).
  destruct (resolvePalette theme hints) as [palette accentColor] eqn:Ep.
  destruct (meshCount hints value1) as [count value2] eqn:Ec.
  cbn [fst snd].
  destruct (composeMeshes _ 0 theme prompt _ value2) as [meshes value3] eqn:Em.
  unfold ret. cbn [fst]. intros H. inversion H; subst.
  exists theme, value1. repeat split; [assumption |].
  rewrite Ep, Ec. cbn [fst snd]. rewrite Em. reflexivity.
Qed.

Lemma composeGeneric_thrown (value : Z) :
  fst (composeGeneric prompt seed hints value) = TypeError ->
  fst (pickTheme prompt (Some hints) value) = None.
Proof.
  unfold composeGeneric, bind.
  destruct (pickTheme prompt (Some hints) value) as [[theme |] value1];
    [| reflexivity].
  destruct (resolvePalette theme hints) as [palette accentColor].
  destruct (meshCount hints value1) as [count value2].
  destruct (composeMeshes _ 0 theme prompt _ value2) as [meshes value3].
  simpl. discriminate.
Qed.

Lemma composeGeneric_live :
  yields live (composeGeneric prompt seed hints)
    (fun outcome => exists spec,
         outcome = Returned spec
         /\ Forall mesh_in_range (ProceduralModelSpec.meshes spec)).
Proof.
  unfold composeGeneric.
  apply yields_bind with (P := fun picked => picked <> None);
    [exact pickTheme_live |].
  intros [theme |] Hp; [| congruence].
  destruct (resolvePalette theme hints) as [palette accentColor].
  apply yields_bind with (P := fun _ => True); [exact meshCount_live |].
  intros count _.
  apply yields_bind with (P := Forall mesh_in_range);
    [apply composeMeshes_range |].
  intros meshes Hm. apply yields_ret. eexists. split; [reflexivity | exact Hm].
Qed.

End Paths.

Lemma clampZ_range (value : Z) : 1 <= clampZ value 1 4 <= 4.
Proof. unfold clampZ. lia. Qed.

Section Templates.

Local Open Scope string_scope.

Variable prompt : string.
Variable hints : PromptHints.t.
Variable seed : Z.

Lemma tryTemplateSpec_taken :
  tryTemplateSpec prompt hints seed <> None
  <-> exists shape, In shape SHAPE_TEMPLATES
                    /\ includesAny (JS.toLowerCase prompt) (template_keywords shape) = true.
Proof.
  rewrite (find_is_some
             (fun shape => includesAny (JS.toLowerCase prompt) (template_keywords shape))).
  unfold tryTemplateSpec.
  destruct (List.find _ SHAPE_TEMPLATES); split; congruence.
Qed.

(** The only template builds three fixed parts. *)
Lemma tryTemplateSpec_meshes (spec : ProceduralModelSpec.t) :
  tryTemplateSpec prompt hints seed = Some spec ->
  ProceduralModelSpec.prompt spec = prompt
  /\ ProceduralModelSpec.seed spec = seed
  /\ ProceduralModelSpec.environment spec = studio
  /\ exists palette blade handle cap,
      ProceduralModelSpec.meshes spec
      = fst (cricketBatMeshes palette (ProceduralModelSpec.accentColor spec)
                              (createGenerator seed))
      /\ ProceduralModelSpec.meshes spec = [blade; handle; cap]
      /\ (MeshDescriptor.name blade = "Cricket-Blade"
          /\ MeshDescriptor.geometry blade = BoxGeometry 0.45 2.2 0.32)
      /\ (MeshDescriptor.name handle = "Cricket-Handle"
          /\ MeshDescriptor.geometry handle = CylinderGeometry 0.12 0.15 1.5 48 1 false)
      /\ (MeshDescriptor.name cap = "Bat-Logo-Panel"
          /\ MeshDescriptor.geometry cap = BoxGeometry 0.4 0.9 0.05)
      /\ Forall (fun mesh => material_in_range (MeshDescriptor.material mesh))
                (ProceduralModelSpec.meshes spec).
Proof.
  unfold tryTemplateSpec.
  destruct (List.find _ SHAPE_TEMPLATES) as [template |] eqn:F; [| discriminate].
  apply List.find_some in F. destruct F as [Hin _].
  destruct Hin as [<- | []].
  intros H. inversion H; subst; clear H. cbn [ProceduralModelSpec.prompt
    ProceduralModelSpec.seed ProceduralModelSpec.environment
    ProceduralModelSpec.meshes ProceduralModelSpec.accentColor
    template_environment buildMeshes JS.nullish].
  repeat split.
  eexists. unfold cricketBatMeshes, bind, createTemplateId.
  destruct (rand (createGenerator seed)) as [r1 v1]. unfold ret at 1.
  destruct (rand v1) as [r2 v2]. unfold ret at 1.
  destruct (rand v2) as [r3 v3]. unfold ret. cbn [fst].
  do 3 eexists. split; [reflexivity |]. split; [reflexivity |].
  cbn [MeshDescriptor.name MeshDescriptor.geometry].
  repeat split.
  repeat constructor; cbn [MeshDescriptor.material MaterialSpec.metalness
    MaterialSpec.roughness]; unfold Qle; simpl; lia.
Qed.

End Templates.

(* ------------------------------------------------------------------ *)
(** ** Properties of [generateModelSpec] *)

Section Blueprint.

Local Open Scope string_scope.

Lemma generateModelSpec_fallback (P Q : option string) :
  fallbackPrompt P = fallbackPrompt Q -> generateModelSpec P = generateModelSpec Q.
Proof. unfold generateModelSpec. intros ->. reflexivity. Qed.

Lemma generateModelSpec_template (P : option string) :
  takesTemplatePath P = true ->
  exists spec,
    tryTemplateSpec (fallbackPrompt P) (analyzePromptHints (fallbackPrompt P))
                    (createSeed (fallbackPrompt P)) = Some spec
    /\ generateModelSpec P = Returned spec.
Proof.
  unfold takesTemplatePath, generateModelSpec.
  destruct (tryTemplateSpec _ _ _) as [spec |]; [| discriminate].
  intros _. exists spec. split; reflexivity.
Qed.

Lemma generateModelSpec_generic (P : option string) :
  takesTemplatePath P = false ->
  generateModelSpec P
  = fst (composeGeneric (fallbackPrompt P) (createSeed (fallbackPrompt P))
           (analyzePromptHints (fallbackPrompt P))
           (createGenerator (createSeed (fallbackPrompt P)))).
Proof.
  unfold takesTemplatePath, generateModelSpec.
  destruct (tryTemplateSpec _ _ _); [discriminate | reflexivity].
Qed.

Lemma returned_prompt_seed (P : option string) (spec : ProceduralModelSpec.t) :
  generateModelSpec P = Returned spec ->
  ProceduralModelSpec.prompt spec = fallbackPrompt P
  /\ ProceduralModelSpec.seed spec = createSeed (fallbackPrompt P).
Proof.
  intros H. destruct (takesTemplatePath P) eqn:T.
  - destruct (generateModelSpec_template P T) as [spec' [Ht Hg]].
    rewrite Hg in H. inversion H; subst.
    destruct (tryTemplateSpec_meshes _ _ _ _ Ht) as [Hp [Hs _]]. auto.
  - rewrite (generateModelSpec_generic P T) in H.
    destruct (composeGeneric_returned _ _ _ _ _ H) as [theme [v [_ [_ ->]]]].
    split; reflexivity.
Qed.

(** A call throws only from a seed that is a multiple of 2147483647. *)
Lemma generateModelSpec_returns (P : option string) :
  live (createSeed (fallbackPrompt P)) ->
  exists spec, generateModelSpec P = Returned spec.
Proof.
  intros Hl. destruct (takesTemplatePath P) eqn:T.
  - destruct (generateModelSpec_template P T) as [spec [_ Hg]]. eauto.
  - rewrite (generateModelSpec_generic P T).
    destruct (composeGeneric_live (fallbackPrompt P)
                (analyzePromptHints (fallbackPrompt P))
                (createSeed (fallbackPrompt P)) _ Hl) as [[spec [E _]] _].
    eauto.
Qed.

Lemma generateModelSpec_thrown (P : option string) :
  generateModelSpec P = TypeError ->
  takesTemplatePath P = false
  /\ fst (pickTheme (fallbackPrompt P) (Some (analyzePromptHints (fallbackPrompt P)))
                    (createGenerator (createSeed (fallbackPrompt P)))) = None
  /\ ~ live (createSeed (fallbackPrompt P)).
Proof.
  intros H. destruct (takesTemplatePath P) eqn:T.
  - destruct (generateModelSpec_template P T) as [spec [_ Hg]]. congruence.
  - split; [reflexivity |]. split.
    + rewrite (generateModelSpec_generic P T) in H.
      apply (composeGeneric_thrown _ _ _ _ H).
    + intros Hl. destruct (generateModelSpec_returns P Hl) as [spec Hs]. congruence.
Qed.

(** "item 232203851" has a digest that starts with 00000000 and no theme
    keyword: theme selection reads [THEME_PRESETS[-1]]. *)
Example generateModelSpec_throws :
  generateModelSpec (Some "item 232203851") = TypeError
  /\ createSeed "item 232203851" = 0.
Proof. split; vm_compute; reflexivity. Qed.

End Blueprint.

(* ------------------------------------------------------------------ *)
(** ** Determinism and the prompt that is hashed *)

Section Determinism.

Local Open Scope string_scope.

Lemma same_mesh_refl (l : list MeshDescriptor.t) : Forall2 same_mesh l l.
Proof. induction l; constructor; unfold same_mesh; auto 10. Qed.

(** C1. Determinism: two calls of [generateModelSpec] on the same prompt,
    absent or present, have the same outcome; when they return, the two
    blueprints have the same seed, environment and accent colour, and
    mesh lists that agree position by position on id, name, geometry,
    material, transform and modifiers. *)
Theorem generateModelSpec_deterministic
        (P : option string) (first second : Outcome) :
  first = generateModelSpec P ->
  second = generateModelSpec P ->
  first = second
  /\ forall b1 b2,
      first = Returned b1 -> second = Returned b2 ->
      ProceduralModelSpec.seed b1 = ProceduralModelSpec.seed b2
      /\ ProceduralModelSpec.environment b1 = ProceduralModelSpec.environment b2
      /\ ProceduralModelSpec.accentColor b1 = ProceduralModelSpec.accentColor b2
      /\ Forall2 same_mesh (ProceduralModelSpec.meshes b1)
                 (ProceduralModelSpec.meshes b2).
Proof.
  intros -> ->. split; [reflexivity |].
  intros b1 b2 H1 H2. rewrite H1 in H2. inversion H2; subst.
  repeat split; try reflexivity. apply same_mesh_refl.
Qed.

Lemma generateModelSpec_deterministic_witness :
  exists b1 b2,
    generateModelSpec (Some "a red robot drone") = Returned b1
    /\ generateModelSpec (Some "a red robot drone") = Returned b2
    /\ ProceduralModelSpec.seed b1 = ProceduralModelSpec.seed b2
    /\ Forall2 same_mesh (ProceduralModelSpec.meshes b1)
               (ProceduralModelSpec.meshes b2).
Proof.
  eexists. eexists.
  split; [vm_compute; reflexivity |].
  split; [vm_compute; reflexivity |].
  pose proof (generateModelSpec_deterministic (Some "a red robot drone") _ _
                eq_refl eq_refl) as [_ H].
  edestruct H as [Hs [_ [_ Hm]]];
    [vm_compute; reflexivity | vm_compute; reflexivity |].
  split; [exact Hs | exact Hm].
Defined.

(** C2. Empty-input normalization: an absent prompt, the empty prompt and
    a prompt of three spaces give the outcome of the prompt
    "abstract artifact"; that outcome is a blueprint whose prompt field is
    "abstract artifact" and whose seed is the seed of that string. *)
Theorem empty_input_normalization :
  generateModelSpec None = generateModelSpec (Some "abstract artifact")
  /\ generateModelSpec (Some "") = generateModelSpec (Some "abstract artifact")
  /\ generateModelSpec (Some "   ") = generateModelSpec (Some "abstract artifact")
  /\ exists spec,
      generateModelSpec (Some "abstract artifact") = Returned spec
      /\ ProceduralModelSpec.prompt spec = "abstract artifact"
      /\ ProceduralModelSpec.seed spec = createSeed "abstract artifact".
Proof.
  repeat split; try (apply generateModelSpec_fallback; reflexivity).
  destruct (generateModelSpec_returns (Some "abstract artifact")) as [spec H].
  - vm_compute. split; [discriminate | discriminate].
  - exists spec. split; [exact H |].
    apply returned_prompt_seed in H. exact H.
Qed.

(** Any prompt that trims to nothing is replaced the same way. *)
Lemma blank_prompt_normalization (p : string) :
  JS.trim p = "" -> generateModelSpec (Some p) = generateModelSpec None.
Proof.
  intros H. apply generateModelSpec_fallback. simpl. now rewrite H.
Qed.

(** C8, as stated, fails: " robot" and "robot" are equal after trimming,
    and their blueprints differ in prompt and in seed. *)
Lemma seed_depends_on_untrimmed_prompt :
  trimmedPrompt (Some " robot") = trimmedPrompt (Some "robot")
  /\ exists b1 b2,
      generateModelSpec (Some " robot") = Returned b1
      /\ generateModelSpec (Some "robot") = Returned b2
      /\ ProceduralModelSpec.seed b1 = 0x2ce57fe9
      /\ ProceduralModelSpec.seed b2 = 0x18d63be1
      /\ ProceduralModelSpec.prompt b1 = " robot"
      /\ ProceduralModelSpec.prompt b2 = "robot"
      /\ b1 <> b2.
Proof.
  split; [reflexivity |].
  eexists. eexists.
  split; [vm_compute; reflexivity |].
  split; [vm_compute; reflexivity |].
  repeat split. discriminate.
Qed.

(** C8, amended. The seed is a function of the fallback prompt, which is
    the prompt as given, white space included, unless it trims to
    nothing: two prompts with the same fallback prompt have the same
    outcome, and a returned blueprint carries the seed of the fallback
    prompt. *)
Theorem seed_function_of_fallback_prompt (P Q : option string) :
  fallbackPrompt P = fallbackPrompt Q ->
  generateModelSpec P = generateModelSpec Q
  /\ forall b1 b2,
      generateModelSpec P = Returned b1 -> generateModelSpec Q = Returned b2 ->
      b1 = b2
      /\ ProceduralModelSpec.seed b1 = createSeed (fallbackPrompt P)
      /\ ProceduralModelSpec.seed b2 = createSeed (fallbackPrompt P).
Proof.
  intros H. pose proof (generateModelSpec_fallback P Q H) as E.
  split; [exact E |].
  intros b1 b2 H1 H2. rewrite E, H2 in H1. inversion H1; subst.
  apply returned_prompt_seed in H2. rewrite <- H in H2. tauto.
Qed.

Lemma seed_function_of_fallback_prompt_witness :
  generateModelSpec None = generateModelSpec (Some "  ").
Proof.
  apply (seed_function_of_fallback_prompt None (Some "  ")). reflexivity.
Defined.

End Determinism.

(* ------------------------------------------------------------------ *)
(** ** The generator *)

Section Generator.

Local Open Scope Q_scope.

(** From a seed that is not a multiple of 2147483647 the generator does
    what its contract says: the state is multiplied by 16807 modulo
    2147483647 and every draw is [(state - 1) / 2147483646], in [0, 1). *)
Lemma createGenerator_contract (seed : Z) (n : nat) :
  live seed ->
  Forall unit_interval (fst (draws n (createGenerator seed)))
  /\ forall value, (0 <= value)%Z ->
       snd (rand value) = ((value * 16807) mod 2147483647)%Z
       /\ fst (rand value) = (snd (rand value) - 1) # 2147483646.
Proof.
  intros Hl. split.
  - enough (H : yields live (draws n) (Forall unit_interval))
      by exact (proj1 (H _ Hl)).
    induction n as [| n IH]; cbn [draws].
    + apply yields_ret. constructor.
    + apply yields_bind with (P := unit_interval); [exact yields_rand |].
      intros r Hr.
      apply yields_bind with (P := Forall unit_interval); [exact IH |].
      intros rest Hrest. apply yields_ret. constructor; assumption.
  - intros value Hv. split; [apply rand_state; assumption | apply rand_draw].
Qed.

Lemma draws_zero (n : nat) :
  draws n 0%Z = (List.repeat (-1 # 2147483646) n, 0%Z).
Proof.
  induction n as [| n IH]; [reflexivity |].
  cbn [draws List.repeat]. unfold bind.
  change (rand 0%Z) with ((-1 # 2147483646), 0%Z).
  cbv beta iota. rewrite IH. reflexivity.
Qed.

(** C4 at seed 0, a 32-bit unsigned seed: the state stays 0 and every
    draw is [-1 / 2147483646], which is negative, so not in [0, 1). *)
Theorem createGenerator_zero_seed (n : nat) :
  fst (draws n (createGenerator 0)) = List.repeat (-1 # 2147483646) n
  /\ snd (draws n (createGenerator 0)) = 0%Z
  /\ fst (rand (createGenerator 0)) = -1 # 2147483646
  /\ ~ unit_interval (fst (rand (createGenerator 0))).
Proof.
  unfold createGenerator. rewrite draws_zero.
  repeat split.
  intros [H _]. vm_compute in H. apply H. reflexivity.
Qed.

End Generator.

(* ------------------------------------------------------------------ *)
(** ** Meshes of a blueprint *)

Section Meshes.

Local Open Scope string_scope.

Lemma meshTarget_values (prompt : string) :
  let target := PromptHints.meshTarget (analyzePromptHints prompt) in
  target = None \/ target = Some 1 \/ target = Some 4.
Proof.
  unfold analyzePromptHints. cbn [PromptHints.meshTarget].
  destruct (includesAny _ SINGLE_OBJECT_KEYWORDS); [auto |].
  destruct (includesAny _ MULTI_OBJECT_KEYWORDS); auto.
Qed.

(** C3. Mesh count bounds: a blueprint returned by [generateModelSpec],
    on either path, has between 1 and 4 meshes; on the generic path the
    number of meshes is the hint target (1 or 4) when there is one, and
    otherwise [2 + floor(rand() * 3)] for the draw that follows theme
    selection, in both cases clamped to 1 .. 4.  A call that returns no
    blueprint has thrown, and its seed is a multiple of 2147483647. *)
Theorem mesh_count_bounds (P : option string) :
  let hints := analyzePromptHints (fallbackPrompt P) in
  match generateModelSpec P with
  | Returned spec =>
      let count := JS.len (ProceduralModelSpec.meshes spec) in
      1 <= count <= 4
      /\ (takesTemplatePath P = false ->
          exists theme value,
            pickTheme (fallbackPrompt P) (Some hints)
                      (createGenerator (createSeed (fallbackPrompt P)))
            = (Some theme, value)
            /\ match PromptHints.meshTarget hints with
               | Some target =>
                   (target = 1 \/ target = 4) /\ count = clampZ target 1 4
               | None =>
                   count = clampZ (2 + JS.floor (fst (rand value) * 3)) 1 4
               end)
  | TypeError => ~ live (createSeed (fallbackPrompt P))
  end.
Proof.
  intros hints. destruct (generateModelSpec P) as [spec |] eqn:H;
    [| apply (generateModelSpec_thrown P H)].
  intros count. destruct (takesTemplatePath P) eqn:T.
  - split; [| discriminate].
    destruct (generateModelSpec_template P T) as [spec' [Ht Hg]].
    rewrite Hg in H. inversion H; subst spec'.
    destruct (tryTemplateSpec_meshes _ _ _ _ Ht)
      as [_ [_ [_ [palette [blade [handle [cap [_ [E _]]]]]]]]].
    subst count. rewrite E. cbv. split; discriminate.
  - rewrite (generateModelSpec_generic P T) in H.
    destruct (composeGeneric_returned _ _ _ _ _ H) as [theme [value [Hp [_ E]]]].
    assert (Hc : count
                 = clampZ (fst (meshCount (analyzePromptHints (fallbackPrompt P)) value))
                          1 4).
    { subst count. rewrite E. cbn [ProceduralModelSpec.meshes]. unfold JS.len.
      rewrite composeMeshes_length.
      pose proof (clampZ_range
                    (fst (meshCount (analyzePromptHints (fallbackPrompt P)) value))).
      lia. }
    split; [rewrite Hc; apply clampZ_range |].
    intros _. exists theme, value. split; [exact Hp |].
    pose proof (meshTarget_values (fallbackPrompt P)) as Ht. cbv zeta in Ht.
    fold hints in Ht, Hc. unfold meshCount in Hc.
    destruct (PromptHints.meshTarget hints) as [target |].
    + split; [| exact Hc].
      destruct Ht as [Ht | [Ht | Ht]]; inversion Ht; auto.
    + exact Hc.
Qed.

(** "a single glowing crystal statue" carries the target 1. *)
Lemma mesh_count_bounds_witness :
  exists spec,
    generateModelSpec (Some "a single glowing crystal statue") = Returned spec
    /\ 1 <= JS.len (ProceduralModelSpec.meshes spec) <= 4.
Proof.
  pose proof (mesh_count_bounds (Some "a single glowing crystal statue")) as H.
  cbv zeta in H.
  destruct (generateModelSpec (Some "a single glowing crystal statue"))
    as [spec |] eqn:E.
  - exists spec. split; [reflexivity | exact (proj1 H)].
  - exfalso. apply H. vm_compute. split; discriminate.
Defined.

(** C6. Primary transform identity: when the template path is not taken,
    the first mesh of the returned blueprint exists and has position
    [0,0,0], rotation [0,0,0] and scale [1,1,1].  A call that returns no
    blueprint has thrown, and its seed is a multiple of 2147483647. *)
Theorem primary_transform_identity (P : option string) :
  takesTemplatePath P = false ->
  match generateModelSpec P with
  | Returned spec =>
      exists mesh rest,
        ProceduralModelSpec.meshes spec = mesh :: rest
        /\ MeshDescriptor.transform mesh
           = MeshTransform.mk (0, 0, 0)%Q (0, 0, 0)%Q (1, 1, 1)%Q
  | TypeError => ~ live (createSeed (fallbackPrompt P))
  end.
Proof.
  intros T. destruct (generateModelSpec P) as [spec |] eqn:H;
    [| apply (generateModelSpec_thrown P H)].
  rewrite (generateModelSpec_generic P T) in H.
  destruct (composeGeneric_returned _ _ _ _ _ H) as [theme [value [_ [_ E]]]].
  rewrite E. cbn [ProceduralModelSpec.meshes].
  pose proof (clampZ_range
                (fst (meshCount (analyzePromptHints (fallbackPrompt P)) value))) as Hc.
  destruct (Z.to_nat (clampZ _ 1 4)) as [| n] eqn:En; [lia |].
  match goal with
  | |- context [composeMeshes (S n) 0 ?t ?p ?c ?v] =>
      destruct (composeMeshes_head t p c n v) as [rest Hr];
      exists (fst (createMeshDescriptor t p 0 c v)), rest
  end.
  split; [exact Hr | apply createMeshDescriptor_primary].
Qed.

Lemma primary_transform_identity_witness :
  exists spec mesh rest,
    generateModelSpec (Some "a red robot drone") = Returned spec
    /\ ProceduralModelSpec.meshes spec = mesh :: rest
    /\ MeshDescriptor.transform mesh
       = MeshTransform.mk (0, 0, 0)%Q (0, 0, 0)%Q (1, 1, 1)%Q.
Proof.
  pose proof (primary_transform_identity (Some "a red robot drone")
                ltac:(vm_compute; reflexivity)) as H.
  destruct (generateModelSpec (Some "a red robot drone")) as [spec |] eqn:E.
  - destruct H as [mesh [rest [Hm Ht]]]. exists spec, mesh, rest. auto.
  - exfalso. apply H. vm_compute. split; discriminate.
Defined.

End Meshes.

(* ------------------------------------------------------------------ *)
(** ** Range containment *)

Section Containment.

Local Open Scope string_scope.

(** Metalness and roughness are in [0, 1] for every mesh of every
    returned blueprint, on both paths and from every seed. *)
Lemma material_containment (P : option string) (spec : ProceduralModelSpec.t) :
  generateModelSpec P = Returned spec ->
  Forall (fun mesh => material_in_range (MeshDescriptor.material mesh))
         (ProceduralModelSpec.meshes spec).
Proof.
  intros H. destruct (takesTemplatePath P) eqn:T.
  - destruct (generateModelSpec_template P T) as [spec' [Ht Hg]].
    rewrite Hg in H. inversion H; subst spec'.
    destruct (tryTemplateSpec_meshes _ _ _ _ Ht)
      as [_ [_ [_ [palette [blade [handle [cap [_ [_ [_ [_ [_ Hm]]]]]]]]]]]].
    exact Hm.
  - rewrite (generateModelSpec_generic P T) in H.
    destruct (composeGeneric_returned _ _ _ _ _ H) as [theme [value [_ [_ E]]]].
    rewrite E. apply composeMeshes_material.
Qed.

(** From a seed that is not a multiple of 2147483647, every mesh of the
    generic path has its geometry parameters and its material in range. *)
Lemma range_containment_live (P : option string) (spec : ProceduralModelSpec.t) :
  live (createSeed (fallbackPrompt P)) ->
  takesTemplatePath P = false ->
  generateModelSpec P = Returned spec ->
  Forall mesh_in_range (ProceduralModelSpec.meshes spec).
Proof.
  intros Hl T H. rewrite (generateModelSpec_generic P T) in H.
  destruct (composeGeneric_live (fallbackPrompt P)
              (analyzePromptHints (fallbackPrompt P))
              (createSeed (fallbackPrompt P)) _ Hl) as [[spec' [E Hm]] _].
  unfold createGenerator in H. rewrite E in H. inversion H; subst. exact Hm.
Qed.

(** C7 at the prompt "robot 2247111167", whose SHA-256 digest starts with
    00000000: the generic path returns one mesh, an icosahedron whose
    radius is below 1.2 and whose detail is -1. *)
Theorem range_containment_dead_seed :
  createSeed "robot 2247111167" = 0
  /\ takesTemplatePath (Some "robot 2247111167") = false
  /\ exists spec mesh,
      generateModelSpec (Some "robot 2247111167") = Returned spec
      /\ ProceduralModelSpec.meshes spec = [mesh]
      /\ MeshDescriptor.id mesh = "undefined-0-0"
      /\ MeshDescriptor.geometry mesh
         = IcosahedronGeometry (2576980374700 # 2147483646000) (-1)
      /\ (2576980374700 # 2147483646000 < 1.2)%Q
      /\ ~ geometry_in_range (MeshDescriptor.geometry mesh).
Proof.
  split; [vm_compute; reflexivity |].
  split; [vm_compute; reflexivity |].
  eexists. eexists.
  split; [vm_compute; reflexivity |].
  split; [reflexivity |].
  split; [reflexivity |].
  split; [reflexivity |].
  split; [reflexivity |].
  cbn [MeshDescriptor.geometry geometry_in_range].
  intros [_ [H | H]]; discriminate.
Qed.

End Containment.

(* ------------------------------------------------------------------ *)
(** ** The pool a geometry kind is drawn from *)

Section Pools.

Variable theme : ThemePreset.t.
Variable context : DescriptorContext.t.
Variable index : Z.

Lemma primaryCandidates_theme :
  In (ThemePreset.primaryGeometry theme) (primaryCandidates theme context).
Proof. unfold primaryCandidates. right. left. reflexivity. Qed.

Lemma secondaryCandidates_theme :
  incl (ThemePreset.secondaryGeometries theme) (secondaryCandidates theme context).
Proof. unfold secondaryCandidates. apply incl_appr, incl_refl. Qed.

Lemma catalog_secondaries :
  In theme THEME_PRESETS ->
  List.length (ThemePreset.secondaryGeometries theme) = 3%nat.
Proof. intros [<- | [<- | [<- | [<- | []]]]]; reflexivity. Qed.

Lemma geometryPool_length :
  In theme THEME_PRESETS -> 2 <= JS.len (geometryPool theme index context).
Proof.
  intros Hin. unfold geometryPool, JS.len. destruct (index =? 0).
  - unfold primaryCandidates. cbn [List.length]. lia.
  - unfold secondaryCandidates. rewrite List.length_app.
    rewrite (catalog_secondaries Hin). lia.
Qed.

(** C9. Geometry-kind selection totality: for a theme of the catalog, any
    hint context and any mesh index, the primary candidates contain the
    theme's primary geometry, the secondary candidates contain the
    theme's three secondary geometries, the pool that is used is not
    empty, and when the draw is in [0, 1) the selection is a kind of that
    pool and consumes that one draw only: the fallback draw from the
    theme's secondary geometries is not made. *)
Theorem geometry_kind_selection_total (value : Z) :
  In theme THEME_PRESETS ->
  unit_interval (fst (rand value)) ->
  In (ThemePreset.primaryGeometry theme) (primaryCandidates theme context)
  /\ incl (ThemePreset.secondaryGeometries theme) (secondaryCandidates theme context)
  /\ List.length (ThemePreset.secondaryGeometries theme) = 3%nat
  /\ geometryPool theme index context <> []
  /\ exists kind,
      geometryKind theme index context value = (Some kind, snd (rand value))
      /\ In kind (geometryPool theme index context).
Proof.
  intros Hin Hr.
  pose proof (geometryPool_length Hin) as Hlen.
  split; [apply primaryCandidates_theme |].
  split; [apply secondaryCandidates_theme |].
  split; [apply (catalog_secondaries Hin) |].
  split.
  - intros E. rewrite E in Hlen. cbv in Hlen. apply Hlen. reflexivity.
  - unfold geometryKind, randomIndex, bind.
    destruct (rand value) as [r v]. cbn [fst snd] in *. unfold ret at 1.
    destruct (at_in_range (geometryPool theme index context)
                (JS.floor (r * inject_Z (JS.len (geometryPool theme index context)))))
      as [kind [E Hk]].
    + apply floor_scaled; [assumption | lia].
    + rewrite E. exists kind. split; [reflexivity | exact Hk].
Qed.

End Pools.

Lemma geometry_kind_selection_total_witness :
  exists kind,
    geometryKind presetOrganic 1 (DescriptorContext.mk [] ""%string (Some torus) organic)
                 3116331073
    = (Some kind, snd (rand 3116331073))
    /\ In kind [torus; cone; sphere; icosahedron].
Proof.
  apply (geometry_kind_selection_total presetOrganic
           (DescriptorContext.mk [] ""%string (Some torus) organic) 1 3116331073).
  - right. left. reflexivity.
  - split; vm_compute; [discriminate | reflexivity].
Defined.

(* ------------------------------------------------------------------ *)
(** ** Environment and named templates *)

Section Environment.

Local Open Scope string_scope.

(** C10. Environment hint overrides the theme: on the generic path, when
    the lower-cased prompt contains a keyword of the environment tables,
    the environment of the returned blueprint is the tag of the first
    table entry, in the order studio, city, sunset, nebula, that has a
    keyword in the prompt, whatever the environment of the selected
    theme; when the prompt contains no such keyword, it is the
    environment of the selected theme.  A call that returns no blueprint
    has thrown, and its seed is a multiple of 2147483647. *)
Theorem environment_hint_overrides_theme (P : option string) :
  takesTemplatePath P = false ->
  let normalized := JS.toLowerCase (fallbackPrompt P) in
  let hints := analyzePromptHints (fallbackPrompt P) in
  match generateModelSpec P with
  | Returned spec =>
      exists theme value,
        pickTheme (fallbackPrompt P) (Some hints)
                  (createGenerator (createSeed (fallbackPrompt P)))
        = (Some theme, value)
        /\ ((exists entry keyword,
                In entry ENVIRONMENT_KEYWORDS /\ In keyword (snd entry)
                /\ JS.includes normalized keyword = true) ->
            exists before tag terms after,
              ENVIRONMENT_KEYWORDS = (before ++ (tag, terms) :: after)%list
              /\ includesAny normalized terms = true
              /\ Forall (fun entry => includesAny normalized (snd entry) = false) before
              /\ ProceduralModelSpec.environment spec = tag)
        /\ ((forall entry keyword,
                In entry ENVIRONMENT_KEYWORDS -> In keyword (snd entry) ->
                JS.includes normalized keyword = false) ->
            ProceduralModelSpec.environment spec = ThemePreset.environment theme)
  | TypeError => ~ live (createSeed (fallbackPrompt P))
  end.
Proof.
  intros T normalized hints.
  destruct (generateModelSpec P) as [spec |] eqn:H;
    [| apply (generateModelSpec_thrown P H)].
  rewrite (generateModelSpec_generic P T) in H.
  destruct (composeGeneric_returned _ _ _ _ _ H) as [theme [value [Hp [_ E]]]].
  exists theme, value. split; [exact Hp |].
  assert (Henv : ProceduralModelSpec.environment spec
                 = JS.nullish (firstEntry ENVIRONMENT_KEYWORDS normalized)
                              (ThemePreset.environment theme))
    by (rewrite E; reflexivity).
  unfold firstEntry in Henv.
  split.
  - intros [entry [keyword [Hin [Hk Hi]]]].
    destruct (List.find (fun e => includesAny normalized (snd e)) ENVIRONMENT_KEYWORDS)
      as [[tag terms] |] eqn:F.
    + destruct (find_first _ _ _ F) as [before [after [Hl [Hm Hb]]]].
      exists before, tag, terms, after. repeat split; assumption.
    + exfalso. pose proof (List.find_none _ _ F entry Hin) as Hn.
      cbv beta in Hn.
      assert (includesAny normalized (snd entry) = true)
        by (apply includesAny_spec; eauto).
      congruence.
  - intros Hnone.
    destruct (List.find (fun e => includesAny normalized (snd e)) ENVIRONMENT_KEYWORDS)
      as [[tag terms] |] eqn:F; [| exact Henv].
    exfalso. apply List.find_some in F. destruct F as [Hin Hm].
    apply includesAny_spec in Hm. destruct Hm as [keyword [Hk Hi]].
    rewrite (Hnone (tag, terms) keyword Hin Hk) in Hi. discriminate.
Qed.

(** "a robot in the forest": the theme is mechanical, whose environment
    is city, and the hint "forest" makes the environment sunset. *)
Lemma environment_hint_overrides_theme_witness :
  exists spec theme value,
    generateModelSpec (Some "a robot in the forest") = Returned spec
    /\ pickTheme "a robot in the forest"
                 (Some (analyzePromptHints "a robot in the forest"))
                 (createGenerator (createSeed "a robot in the forest"))
       = (Some theme, value)
    /\ ThemePreset.environment theme = city
    /\ ProceduralModelSpec.environment spec = sunset.
Proof.
  pose proof (environment_hint_overrides_theme (Some "a robot in the forest")
                ltac:(vm_compute; reflexivity)) as H.
  cbv zeta in H.
  destruct (generateModelSpec (Some "a robot in the forest")) as [spec |] eqn:E;
    [| exfalso; apply H; vm_compute; split; discriminate].
  destruct H as [theme [value [Hp [Hhint _]]]].
  destruct Hhint as [before [tag [terms [after [Hl [Hm [Hb He]]]]]]].
  { exists (sunset, ["sunset"; "dusk"; "golden hour"; "desert"; "forest"]), "forest".
    repeat split; vm_compute; auto 10. }
  exists spec, theme, value.
  split; [reflexivity |]. split; [exact Hp |].
  split.
  - change (fallbackPrompt (Some "a robot in the forest"))
      with "a robot in the forest" in Hp.
    vm_compute in Hp. inversion Hp. reflexivity.
  - rewrite He. clear -Hl Hm Hb.
    destruct before as [| e0 [| e1 [| e2 [| e3 before]]]];
      inversion Hl; subst; try reflexivity.
    + vm_compute in Hm. discriminate.
    + vm_compute in Hm. discriminate.
    + inversion Hb as [| ? ? _ Hb1]; subst. inversion Hb1 as [| ? ? _ Hb2]; subst.
      inversion Hb2 as [| ? ? Hs _]; subst. vm_compute in Hs. discriminate.
    + destruct before; discriminate.
Defined.

(** C5. Named-template trigger and bypass: the template path is taken
    exactly when the lower-cased prompt contains a trigger phrase of a
    template of the catalog as a run of consecutive characters; when it
    is taken the call returns the blueprint of [tryTemplateSpec], built
    with a generator of its own from the seed, whatever theme selection
    would have done, and its meshes are the three of the cricket bat:
    blade, handle and logo panel, with their fixed geometry. *)
Theorem template_trigger_and_bypass (P : option string) :
  let fallback := fallbackPrompt P in
  let normalized := JS.toLowerCase fallback in
  ((exists shape phrase pre post,
       In shape SHAPE_TEMPLATES /\ In phrase (template_keywords shape)
       /\ normalized = pre ++ phrase ++ post)
   <-> takesTemplatePath P = true)
  /\ (takesTemplatePath P = true ->
      exists spec palette blade handle cap,
        generateModelSpec P = Returned spec
        /\ tryTemplateSpec fallback (analyzePromptHints fallback) (createSeed fallback)
           = Some spec
        /\ ProceduralModelSpec.meshes spec
           = fst (cricketBatMeshes palette (ProceduralModelSpec.accentColor spec)
                                   (createGenerator (createSeed fallback)))
        /\ ProceduralModelSpec.meshes spec = [blade; handle; cap]
        /\ (MeshDescriptor.name blade = "Cricket-Blade"
            /\ MeshDescriptor.geometry blade = BoxGeometry 0.45 2.2 0.32)
        /\ (MeshDescriptor.name handle = "Cricket-Handle"
            /\ MeshDescriptor.geometry handle
               = CylinderGeometry 0.12 0.15 1.5 48 1 false)
        /\ (MeshDescriptor.name cap = "Bat-Logo-Panel"
            /\ MeshDescriptor.geometry cap = BoxGeometry 0.4 0.9 0.05)).
Proof.
  intros fallback normalized. split.
  - assert (Ht : takesTemplatePath P = true
                 <-> tryTemplateSpec fallback (analyzePromptHints fallback)
                                     (createSeed fallback) <> None).
    { unfold takesTemplatePath. fold fallback.
      destruct (tryTemplateSpec _ _ _); split; congruence. }
    rewrite Ht, tryTemplateSpec_taken. fold normalized. split.
    + intros [shape [phrase [pre [post [Hin [Hk E]]]]]].
      exists shape. split; [exact Hin |].
      apply includesAny_spec. exists phrase. split; [exact Hk |].
      apply includes_spec. eauto.
    + intros [shape [Hin Hm]].
      apply includesAny_spec in Hm. destruct Hm as [phrase [Hk Hi]].
      apply includes_spec in Hi. destruct Hi as [pre [post E]].
      exists shape, phrase, pre, post. auto.
  - intros T. destruct (generateModelSpec_template P T) as [spec [Ht Hg]].
    destruct (tryTemplateSpec_meshes _ _ _ _ Ht)
      as [_ [_ [_ [palette [blade [handle [cap [Hb [Hl [H1 [H2 [H3 _]]]]]]]]]]]].
    exists spec, palette, blade, handle, cap. auto 10.
Qed.

(** "Cricket Bat" takes the template path, and so does "combat drone",
    which contains "bat". *)
Lemma template_trigger_and_bypass_witness :
  takesTemplatePath (Some "combat drone") = true
  /\ exists spec,
      generateModelSpec (Some "combat drone") = Returned spec
      /\ List.map MeshDescriptor.name (ProceduralModelSpec.meshes spec)
         = ["Cricket-Blade"; "Cricket-Handle"; "Bat-Logo-Panel"].
Proof.
  destruct (template_trigger_and_bypass (Some "combat drone")) as [Hiff Hmeshes].
  assert (T : takesTemplatePath (Some "combat drone") = true).
  { apply Hiff.
    exists (mkShapeTemplate "cricket-bat" ["cricket bat"; "bat"] (Some studio)
                            cricketBatMeshes), "bat", "com", " drone".
    repeat split; [left; reflexivity | right; left; reflexivity]. }
  split; [exact T |].
  destruct (Hmeshes T)
    as [spec [palette [blade [handle [cap [Hg [_ [_ [Hl [[N1 _] [[N2 _] [N3 _]]]]]]]]]]]].
  exists spec. split; [exact Hg |].
  rewrite Hl. cbn [List.map]. rewrite N1, N2, N3. reflexivity.
Defined.

(** "bat 3262781224" has a digest that starts with fffffffe, twice
    2147483647, and no theme keyword: theme selection would throw, and the
    template path returns without it. *)
Example template_bypasses_theme_selection :
  createSeed "bat 3262781224" = 4294967294
  /\ fst (composeGeneric "bat 3262781224" 4294967294
            (analyzePromptHints "bat 3262781224") (createGenerator 4294967294))
     = TypeError
  /\ exists spec,
      generateModelSpec (Some "bat 3262781224") = Returned spec
      /\ List.map MeshDescriptor.id (ProceduralModelSpec.meshes spec)
         = ["bat-blade-0"; "bat-handle-0"; "bat-cap-0"].
Proof.
  split; [vm_compute; reflexivity |].
  split; [vm_compute; reflexivity |].
  eexists. split; vm_compute; reflexivity.
Qed.

End Environment.

(* ------------------------------------------------------------------ *)
(** ** The seed and the digest *)

Section SeedWord.

Local Open Scope string_scope.

Lemma hexValue_hexDigit (d : Z) :
  0 <= d < 16 -> hexValue (SHA256.hexDigit d) = d.
Proof.
  intros H.
  assert (E : d = 0 \/ d = 1 \/ d = 2 \/ d = 3 \/ d = 4 \/ d = 5 \/ d = 6 \/ d = 7
              \/ d = 8 \/ d = 9 \/ d = 10 \/ d = 11 \/ d = 12 \/ d = 13 \/ d = 14
              \/ d = 15) by lia.
  repeat (destruct E as [-> | E]; [reflexivity |]). subst. reflexivity.
Qed.

(** Reading back the eight digits of a word gives the word. *)
Lemma parseInt16_hex32 (w : Z) :
  0 <= w < SHA256.w32 -> parseInt16 (SHA256.hex32 w) = w.
Proof.
  intros Hw. unfold SHA256.w32 in Hw. unfold parseInt16, SHA256.hex32.
  rewrite list_ascii_of_string_of_list_ascii.
  cbn [List.map List.fold_left].
  rewrite !hexValue_hexDigit by (apply Z.mod_pos_bound; lia).
  change (16 ^ 7) with 268435456. change (16 ^ 6) with 16777216.
  change (16 ^ 5) with 1048576. change (16 ^ 4) with 65536.
  change (16 ^ 3) with 4096. change (16 ^ 2) with 256.
  change (16 ^ 1) with 16. change (16 ^ 0) with 1.
  Z.div_mod_to_equations. lia.
Qed.

Lemma substring_hex32 (w : Z) (rest : string) :
  String.substring 0 8 (SHA256.hex32 w ++ rest) = SHA256.hex32 w.
Proof.
  unfold SHA256.hex32.
  cbn [List.map string_of_list_ascii String.append String.substring].
  destruct rest; reflexivity.
Qed.

Lemma compress_words (h block : list Z) :
  List.length h = 8%nat -> word_list (SHA256.compress h block).
Proof.
  intros Hl. unfold SHA256.compress. split.
  - rewrite List.length_map, List.length_combine, Hl. reflexivity.
  - apply Forall_forall. intros w Hin. apply in_map_iff in Hin.
    destruct Hin as [p [<- _]]. unfold SHA256.add32.
    apply Z.mod_pos_bound. reflexivity.
Qed.

Lemma blocks_words (fuel : nat) (h ws : list Z) :
  word_list h -> word_list (SHA256.blocks fuel h ws).
Proof.
  revert h ws. induction fuel as [| f IH]; intros h ws Hh; [exact Hh |].
  cbn [SHA256.blocks]. destruct ws as [| w ws]; [exact Hh |].
  apply IH. apply compress_words. exact (proj1 Hh).
Qed.

Lemma digest_words (s : string) : word_list (SHA256.digest s).
Proof.
  unfold SHA256.digest. apply blocks_words. split.
  - reflexivity.
  - repeat constructor; discriminate.
Qed.

(** X1. The seed is the first 32-bit word of the SHA-256 digest of the
    prompt: the eight hexadecimal digits that [createSeed] slices off and
    parses read back that word, so the seed is an integer from 0 to
    2^32 - 1. *)
Theorem createSeed_first_word (prompt : string) :
  createSeed prompt = List.nth 0 (SHA256.digest prompt) 0
  /\ 0 <= createSeed prompt < 2 ^ 32.
Proof.
  destruct (digest_words prompt) as [Hl Hr].
  assert (E : createSeed prompt = List.nth 0 (SHA256.digest prompt) 0).
  { unfold createSeed, SHA256.hexdigest.
    destruct (SHA256.digest prompt) as [| w0 [| w1 rest]]; try discriminate.
    inversion Hr as [| ? ? Hw0 _]; subst.
    cbn [List.map String.concat List.nth].
    rewrite substring_hex32.
    apply parseInt16_hex32. exact Hw0. }
  split; [exact E |]. rewrite E.
  destruct (SHA256.digest prompt) as [| w0 rest]; [discriminate |].
  inversion Hr; subst. exact H1.
Qed.

End SeedWord.

(* ------------------------------------------------------------------ *)
(** ** The generator from a usable seed *)

Section UsableSeed.

Lemma draws_live (n : nat) :
  yields live (draws n) (Forall unit_interval).
Proof.
  induction n as [| n IH]; cbn [draws].
  - apply yields_ret. constructor.
  - apply yields_bind with (P := unit_interval); [exact yields_rand |].
    intros r Hr.
    apply yields_bind with (P := Forall unit_interval); [exact IH |].
    intros rest Hrest. apply yields_ret. constructor; assumption.
Qed.

Lemma draws_in_cycle (n : nat) :
  yields (fun value => 0 < value < modulus) (draws n) (fun _ => True).
Proof.
  induction n as [| n IH]; cbn [draws].
  - apply yields_ret. exact I.
  - apply yields_bind with (P := fun _ => True).
    + intros value Hv. split; [exact I |].
      apply live_next. split; [lia |].
      rewrite Z.mod_small by lia. lia.
    + intros r _. apply yields_bind with (P := fun _ => True); [exact IH |].
      intros rest _. apply yields_ret. exact I.
Qed.

Lemma bind_run {A B : Type} (c : Gen A) (k : A -> Gen B) (value : Z) :
  bind c k value = k (fst (c value)) (snd (c value)).
Proof. unfold bind. destruct (c value). reflexivity. Qed.

Lemma draws_state (n : nat) (value : Z) :
  live value -> 0 < snd (draws (S n) value) < modulus.
Proof.
  intros Hl. pose proof (live_next value Hl) as Hn.
  cbn [draws]. rewrite bind_run. destruct (rand value) as [r v]. cbn [fst snd] in *.
  assert (H : yields (fun value => 0 < value < modulus)
                     (bind (draws n) (fun rest => ret (r :: rest))) (fun _ => True)).
  { apply yields_bind with (P := fun _ => True); [apply draws_in_cycle |].
    intros rest _. apply yields_ret. exact I. }
  exact (proj2 (H v Hn)).
Qed.

(** X2. From a 32-bit seed other than 0, 2147483647 and 4294967294, after
    any number of calls the state of the generator is between 1 and
    2147483646, and every value drawn is in [0, 1). *)
Theorem generator_from_usable_seed (seed : Z) (n : nat) :
  0 <= seed < 2 ^ 32 ->
  seed <> 0 -> seed <> 2147483647 -> seed <> 4294967294 ->
  1 <= snd (draws (S n) (createGenerator seed)) <= 2147483646
  /\ Forall (fun r => (0 <= r /\ r < 1)%Q) (fst (draws (S n) (createGenerator seed))).
Proof.
  intros Hs H0 H1 H2.
  assert (Hl : live seed).
  { destruct (Z.eq_dec (seed mod modulus) 0) as [E | E].
    - exfalso. assert (Hd : ~ live seed) by (intros [_ H]; auto).
      apply (dead_seeds seed Hs) in Hd. lia.
    - split; [lia | exact E]. }
  unfold createGenerator. split.
  - pose proof (draws_state n seed Hl) as H. unfold modulus in H. lia.
  - exact (proj1 (draws_live (S n) seed Hl)).
Qed.

Lemma generator_from_usable_seed_witness :
  1 <= snd (draws 3 (createGenerator 3116331073)) <= 2147483646.
Proof.
  apply (generator_from_usable_seed 3116331073 2); lia.
Defined.

End UsableSeed.

(* ------------------------------------------------------------------ *)
(** ** Theme selection *)

Section ThemeSelection.

Local Open Scope string_scope.

Lemma catalog_ids (preset : ThemePreset.t) :
  In preset THEME_PRESETS ->
  JS.truthy (ThemePreset.id preset) = true
  /\ List.find (fun p => String.eqb (ThemePreset.id p) (ThemePreset.id preset))
               THEME_PRESETS = Some preset.
Proof.
  intros [<- | [<- | [<- | [<- | []]]]]; split; reflexivity.
Qed.

Lemma preferredThemeId_spec (prompt : string) :
  PromptHints.preferredThemeId (analyzePromptHints prompt)
  = option_map ThemePreset.id
      (List.find (themeMatches (JS.toLowerCase prompt)) THEME_PRESETS).
Proof. reflexivity. Qed.

Lemma pickTheme_matched (prompt : string) (value : Z) (theme : ThemePreset.t) :
  List.find (themeMatches (JS.toLowerCase prompt)) THEME_PRESETS = Some theme ->
  pickTheme prompt (Some (analyzePromptHints prompt)) value = (Some theme, value).
Proof.
  intros F. unfold pickTheme. rewrite preferredThemeId_spec, F.
  destruct (catalog_ids theme (proj1 (List.find_some _ _ F))) as [Ht Hf].
  cbn [option_map]. rewrite Ht, Hf. reflexivity.
Qed.

Lemma pickTheme_drawn (prompt : string) (value : Z) :
  List.find (themeMatches (JS.toLowerCase prompt)) THEME_PRESETS = None ->
  pickTheme prompt (Some (analyzePromptHints prompt)) value
  = (JS.at_ THEME_PRESETS (JS.floor (fst (rand value) * 4)), snd (rand value)).
Proof.
  intros F. unfold pickTheme. rewrite preferredThemeId_spec, F.
  cbn [option_map]. unfold bind, ret.
  destruct (rand value) as [r v]. reflexivity.
Qed.

(** A keyword of a preset in the text, and the search of the catalog. *)
Lemma themeMatches_some (normalized : string) :
  (exists preset keyword,
      In preset THEME_PRESETS /\ In keyword (ThemePreset.keywords preset)
      /\ JS.includes normalized keyword = true)
  <-> List.find (themeMatches normalized) THEME_PRESETS <> None.
Proof.
  rewrite <- (find_is_some (themeMatches normalized)). unfold themeMatches. split.
  - intros [preset [keyword [Hin [Hk Hi]]]]. exists preset. split; [exact Hin |].
    apply existsb_exists. eauto.
  - intros [preset [Hin Hm]]. apply existsb_exists in Hm.
    destruct Hm as [keyword [Hk Hi]]. eauto.
Qed.

(** X3. Theme selection with the hints of the same prompt: when a theme
    keyword occurs in the lower-cased prompt, the theme is the first preset
    of the catalog, in its order, that has such a keyword, and the
    generator is not touched; otherwise one value is drawn and the theme is
    [THEME_PRESETS[floor(draw * 4)]]. *)
Theorem pickTheme_by_keyword (prompt : string) (value : Z) :
  let normalized := JS.toLowerCase prompt in
  let picked := pickTheme prompt (Some (analyzePromptHints prompt)) value in
  ((exists preset keyword,
       In preset THEME_PRESETS /\ In keyword (ThemePreset.keywords preset)
       /\ JS.includes normalized keyword = true) ->
   exists before theme after,
     THEME_PRESETS = (before ++ theme :: after)%list
     /\ themeMatches normalized theme = true
     /\ Forall (fun preset => themeMatches normalized preset = false) before
     /\ picked = (Some theme, value))
  /\ ((forall preset keyword,
          In preset THEME_PRESETS -> In keyword (ThemePreset.keywords preset) ->
          JS.includes normalized keyword = false) ->
      picked = (JS.at_ THEME_PRESETS (JS.floor (fst (rand value) * 4)),
                snd (rand value))).
Proof.
  intros normalized picked. subst picked.
  pose proof (themeMatches_some normalized) as Hs.
  destruct (List.find (themeMatches normalized) THEME_PRESETS) as [theme |] eqn:F.
  - split.
    + intros _. destruct (find_first _ _ _ F) as [before [after [Hl [Hm Hb]]]].
      exists before, theme, after. repeat split; try assumption.
      apply pickTheme_matched. exact F.
    + intros Hnone. exfalso.
      destruct (proj2 Hs) as [preset [keyword [Hin [Hk Hi]]]]; [discriminate |].
      rewrite (Hnone preset keyword Hin Hk) in Hi. discriminate.
  - split.
    + intros H. exfalso. apply (proj1 Hs H). reflexivity.
    + intros _. apply pickTheme_drawn. exact F.
Qed.

(** "a red robot drone": "robot" and "drone" are keywords of mechanical,
    "drone" is also one of aero, and mechanical comes first. *)
Lemma pickTheme_by_keyword_witness :
  exists value,
    pickTheme "a red robot drone" (Some (analyzePromptHints "a red robot drone")) 17
    = (Some presetMechanical, value).
Proof.
  destruct (pickTheme_by_keyword "a red robot drone" 17) as [H _].
  destruct H as [before [theme [after [Hl [Hm [Hb Hp]]]]]].
  { exists presetAero, "drone". repeat split; vm_compute; auto 20. }
  exists 17. rewrite Hp. f_equal. f_equal.
  destruct before as [| b before].
  - inversion Hl. reflexivity.
  - inversion Hl; subst. inversion Hb as [| ? ? Hx _]; subst.
    vm_compute in Hx. discriminate.
Defined.

End ThemeSelection.

(* ------------------------------------------------------------------ *)
(** ** When a call throws *)

Section Throws.

Local Open Scope string_scope.

(** X4. [generateModelSpec] throws exactly when the seed of the fallback
    prompt is 0, 2147483647 or 4294967294, the prompt triggers no template
    and it contains no theme keyword: theme selection then reads
    [THEME_PRESETS[-1]].  Every other call returns a blueprint. *)
Theorem generateModelSpec_throws_iff (P : option string) :
  let fallback := fallbackPrompt P in
  generateModelSpec P = TypeError
  <-> (createSeed fallback = 0 \/ createSeed fallback = 2147483647
       \/ createSeed fallback = 4294967294)
      /\ takesTemplatePath P = false
      /\ forall preset keyword,
          In preset THEME_PRESETS -> In keyword (ThemePreset.keywords preset) ->
          JS.includes (JS.toLowerCase fallback) keyword = false.
Proof.
  intros fallback.
  pose proof (createSeed_range fallback) as Hr.
  pose proof (themeMatches_some (JS.toLowerCase fallback)) as Hs.
  split.
  - intros H. destruct (generateModelSpec_thrown P H) as [T [Hp Hd]].
    fold fallback in Hp, Hd.
    split; [apply (dead_seeds _ Hr); exact Hd |].
    split; [exact T |].
    intros preset keyword Hin Hk.
    destruct (JS.includes (JS.toLowerCase fallback) keyword) eqn:E; [| reflexivity].
    exfalso.
    destruct (List.find (themeMatches (JS.toLowerCase fallback)) THEME_PRESETS)
      as [theme |] eqn:F.
    + rewrite (pickTheme_matched fallback _ theme F) in Hp. discriminate.
    + apply (proj1 Hs); [eauto | reflexivity].
  - intros [Hd [T Hk]].
    rewrite (generateModelSpec_generic P T). fold fallback.
    assert (F : List.find (themeMatches (JS.toLowerCase fallback)) THEME_PRESETS = None).
    { destruct (List.find _ THEME_PRESETS) as [theme |] eqn:F; [| reflexivity].
      exfalso. destruct (proj2 Hs) as [preset [keyword [Hin [Hk' Hi]]]];
        [discriminate |].
      rewrite (Hk preset keyword Hin Hk') in Hi. discriminate. }
    unfold composeGeneric. rewrite bind_run, (pickTheme_drawn fallback _ F).
    unfold createGenerator. rewrite rand_dead.
    + reflexivity.
    + lia.
    + destruct Hd as [-> | [-> | ->]]; reflexivity.
Qed.

End Throws.

(* ------------------------------------------------------------------ *)
(** ** Colours *)

Section Colours.

Local Open Scope string_scope.

Lemma existsb_eqb_In (x : string) (seen : list string) :
  existsb (String.eqb x) seen = true <-> In x seen.
Proof.
  rewrite existsb_exists. split.
  - intros [y [Hin E]]. apply String.eqb_eq in E. now subst.
  - intros Hin. exists x. split; [exact Hin | apply String.eqb_refl].
Qed.

Lemma dedup_In (seen l : list string) (x : string) :
  In x (JS.dedup seen l) <-> In x l /\ ~ In x seen.
Proof.
  revert seen. induction l as [| y l IH]; intros seen; cbn [JS.dedup].
  - simpl. tauto.
  - destruct (existsb (String.eqb y) seen) eqn:E.
    + apply existsb_eqb_In in E. rewrite IH. simpl. split.
      * tauto.
      * intros [[-> | H] Hn]; [contradiction | tauto].
    + assert (Hy : ~ In y seen)
        by (intros H; apply existsb_eqb_In in H; congruence).
      simpl. rewrite IH. simpl. split.
      * intros [-> | [H Hn]]; [tauto |]. split; [tauto |]. intros Hs. apply Hn. tauto.
      * intros [[-> | H] Hn]; [tauto |].
        destruct (String.eqb_spec y x) as [-> | Hne]; [tauto |].
        right. split; [exact H |]. intros [E' | Hs]; [congruence | contradiction].
Qed.

Lemma dedup_NoDup (seen l : list string) : NoDup (JS.dedup seen l).
Proof.
  revert seen. induction l as [| y l IH]; intros seen; cbn [JS.dedup].
  - constructor.
  - destruct (existsb (String.eqb y) seen); [apply IH |].
    constructor; [| apply IH].
    rewrite dedup_In. simpl. tauto.
Qed.

(** A list without repetition, none of it seen before, is kept as it is. *)
Lemma dedup_prefix (seen a b : list string) :
  NoDup a -> (forall x, In x a -> ~ In x seen) ->
  JS.dedup seen (a ++ b) = (a ++ JS.dedup (List.rev a ++ seen) b)%list.
Proof.
  revert seen. induction a as [| x a IH]; intros seen Hn Hs; [reflexivity |].
  inversion Hn as [| ? ? Hx Ha]; subst.
  cbn [List.app JS.dedup].
  destruct (existsb (String.eqb x) seen) eqn:E.
  - apply existsb_eqb_In in E. exfalso. apply (Hs x); simpl; auto.
  - rewrite IH.
    + cbn [List.rev]. rewrite <- List.app_assoc. reflexivity.
    + exact Ha.
    + intros y Hy [-> | Hin]; [contradiction |]. apply (Hs y); simpl; auto.
Qed.

Lemma dedup_fixed (l : list string) : NoDup l -> JS.dedup [] l = l.
Proof.
  intros Hn. rewrite <- (List.app_nil_r l) at 1.
  rewrite dedup_prefix by (auto). cbn [JS.dedup]. apply List.app_nil_r.
Qed.

Lemma hintedColours_NoDup (prompt : string) : NoDup (hintedColours prompt).
Proof.
  unfold hintedColours.
  assert (H : NoDup (List.map fst COLOR_KEYWORDS))
    by (repeat constructor; simpl; intuition discriminate).
  revert H. generalize COLOR_KEYWORDS.
  induction l as [| e l IH]; intros Hn; [constructor |].
  inversion Hn as [| ? ? Hx Hl]; subst. cbn [List.filter].
  destruct (includesAny _ (snd e)).
  - cbn [List.map]. constructor; [| apply IH; exact Hl].
    intros Hin. apply Hx. apply in_map_iff in Hin.
    destruct Hin as [e' [E Hf]]. apply filter_In in Hf.
    apply in_map_iff. exists e'. tauto.
  - apply IH. exact Hl.
Qed.

Lemma hints_paletteOverride (prompt : string) :
  PromptHints.paletteOverride (analyzePromptHints prompt)
  = match hintedColours prompt with
    | [] => None
    | colours => Some colours
    end.
Proof.
  unfold analyzePromptHints. cbn [PromptHints.paletteOverride].
  fold (hintedColours prompt).
  pose proof (hintedColours_NoDup prompt) as Hn.
  destruct (hintedColours prompt) as [| c l] eqn:E; [reflexivity |].
  replace (0 <? JS.len (c :: l))%Z with true
    by (symmetry; apply Z.ltb_lt; unfold JS.len; cbn [List.length]; lia).
  rewrite (dedup_fixed _ Hn). reflexivity.
Qed.

Lemma hints_accentColor (prompt : string) :
  PromptHints.accentColor (analyzePromptHints prompt)
  = List.hd_error (hintedColours prompt).
Proof.
  unfold analyzePromptHints. cbn [PromptHints.accentColor].
  fold (hintedColours prompt).
  destruct (hintedColours prompt); reflexivity.
Qed.

(** X5. The colour hints of a prompt: the override palette is the list of
    the keys of [COLOR_KEYWORDS] that have a keyword in the lower-cased
    prompt, each once and in table order, or [undefined] when there is
    none; the accent hint is the first of them. *)
Theorem analyzePromptHints_colours (prompt : string) :
  let hints := analyzePromptHints prompt in
  let normalized := JS.toLowerCase prompt in
  (forall hex,
      In hex (hintedColours prompt)
      <-> exists terms keyword,
            In (hex, terms) COLOR_KEYWORDS /\ In keyword terms
            /\ JS.includes normalized keyword = true)
  /\ NoDup (hintedColours prompt)
  /\ PromptHints.paletteOverride hints
     = match hintedColours prompt with
       | [] => None
       | colours => Some colours
       end
  /\ PromptHints.accentColor hints = List.hd_error (hintedColours prompt).
Proof.
  intros hints normalized.
  split; [| split; [apply hintedColours_NoDup
                   | split; [apply hints_paletteOverride | apply hints_accentColor]]].
  intros hex. unfold hintedColours. rewrite in_map_iff. split.
  - intros [[hex' terms] [E Hf]]. cbn [fst] in E. subst hex'.
    apply filter_In in Hf. destruct Hf as [Hin Hm]. cbn [snd] in Hm.
    apply includesAny_spec in Hm. destruct Hm as [keyword [Hk Hi]].
    exists terms, keyword. auto.
  - intros [terms [keyword [Hin [Hk Hi]]]]. exists (hex, terms).
    split; [reflexivity |]. apply filter_In. split; [exact Hin |].
    apply includesAny_spec. exists keyword. auto.
Qed.

Lemma catalog_palettes (theme : ThemePreset.t) :
  In theme THEME_PRESETS ->
  NoDup (ThemePreset.palette theme)
  /\ In (ThemePreset.accentColor theme) (ThemePreset.palette theme)
  /\ List.length (ThemePreset.palette theme) = 4%nat.
Proof.
  intros [<- | [<- | [<- | [<- | []]]]];
    (split; [repeat constructor; simpl; intuition discriminate
            | split; [simpl; tauto | reflexivity]]).
Qed.

(** The merge of [resolvePalette], for the hints of a prompt. *)
Lemma resolvePalette_hinted (theme : ThemePreset.t) (prompt : string) :
  In theme THEME_PRESETS ->
  resolvePalette theme (analyzePromptHints prompt)
  = ((hintedColours prompt
        ++ JS.dedup (List.rev (hintedColours prompt)) (ThemePreset.palette theme))%list,
     JS.nullish (List.hd_error (hintedColours prompt)) (ThemePreset.accentColor theme)).
Proof.
  intros Hin.
  destruct (catalog_palettes theme Hin) as [Hnd _].
  pose proof (hintedColours_NoDup prompt) as Hn.
  unfold resolvePalette. rewrite hints_paletteOverride, hints_accentColor.
  destruct (hintedColours prompt) as [| c l].
  - cbn [List.rev List.app List.hd_error]. rewrite (dedup_fixed _ Hnd). reflexivity.
  - replace (0 <? JS.len (c :: l))%Z with true
      by (symmetry; apply Z.ltb_lt; unfold JS.len; cbn [List.length]; lia).
    rewrite dedup_prefix by (auto). rewrite List.app_nil_r.
    rewrite List.firstn_all2.
    + reflexivity.
    + unfold JS.len. lia.
Qed.

Lemma resolvePalette_rest (theme : ThemePreset.t) (prompt : string) (c : string) :
  In c (JS.dedup (List.rev (hintedColours prompt)) (ThemePreset.palette theme))
  <-> In c (ThemePreset.palette theme) /\ ~ In c (hintedColours prompt).
Proof. rewrite dedup_In, <- List.in_rev. tauto. Qed.

(** The resolved palette is never shorter than the theme's. *)
Lemma resolvePalette_long (theme : ThemePreset.t) (prompt : string) :
  In theme THEME_PRESETS ->
  (4 <= List.length (fst (resolvePalette theme (analyzePromptHints prompt))))%nat.
Proof.
  intros Hin. destruct (catalog_palettes theme Hin) as [Hnd [_ H4]].
  rewrite <- H4. rewrite (resolvePalette_hinted theme prompt Hin). cbn [fst].
  apply NoDup_incl_length; [exact Hnd |].
  intros c Hc. apply in_or_app.
  destruct (in_dec string_dec c (hintedColours prompt)) as [Hh | Hh]; [left; exact Hh |].
  right. apply resolvePalette_rest. tauto.
Qed.

(** X6. The resolved palette, for a theme of the catalog and the hints of
    a prompt: it is the hinted colours, in table order, followed by the
    colours of the theme that are not hinted; no colour occurs twice, so
    taking [max(theme.palette.length, merged.length)] entries removes
    nothing and the palette is at least as long as the theme's.  The
    accent is the first hinted colour, or the theme's accent when no
    colour is hinted, and it is always a colour of the palette. *)
Theorem resolvePalette_spec (theme : ThemePreset.t) (prompt : string) :
  In theme THEME_PRESETS ->
  let resolved := resolvePalette theme (analyzePromptHints prompt) in
  let hinted := hintedColours prompt in
  NoDup (fst resolved)
  /\ (exists rest,
        fst resolved = (hinted ++ rest)%list
        /\ forall c, In c rest <-> In c (ThemePreset.palette theme) /\ ~ In c hinted)
  /\ (List.length (ThemePreset.palette theme) <= List.length (fst resolved))%nat
  /\ snd resolved = JS.nullish (List.hd_error hinted) (ThemePreset.accentColor theme)
  /\ In (snd resolved) (fst resolved).
Proof.
  intros Hin. cbv zeta.
  destruct (catalog_palettes theme Hin) as [Hnd [Hacc H4]].
  pose proof (resolvePalette_long theme prompt Hin) as Hlong.
  pose proof (hintedColours_NoDup prompt) as Hn.
  pose proof (resolvePalette_rest theme prompt) as Hrest.
  rewrite (resolvePalette_hinted theme prompt Hin) in *. cbn [fst snd] in *.
  split.
  { apply NoDup_app; [exact Hn | apply dedup_NoDup |].
    intros c Hc Hd. apply Hrest in Hd. tauto. }
  split; [eexists; split; [reflexivity | exact Hrest] |].
  split; [lia |].
  split; [reflexivity |].
  destruct (hintedColours prompt) as [| c l]; cbn [List.hd_error JS.nullish].
  - cbn [List.app List.rev]. rewrite (dedup_fixed _ Hnd). exact Hacc.
  - left. reflexivity.
Qed.

(** "a red and gold robot": red and gold come first, then the four colours
    of the mechanical theme. *)
Lemma resolvePalette_spec_witness :
  resolvePalette presetMechanical (analyzePromptHints "a red and gold robot")
  = (["#ef4444"; "#f59e0b"; "#94a3b8"; "#facc15"; "#0f172a"; "#cbd5f5"], "#ef4444")
  /\ NoDup (fst (resolvePalette presetMechanical
                   (analyzePromptHints "a red and gold robot"))).
Proof.
  split; [vm_compute; reflexivity |].
  exact (proj1 (resolvePalette_spec presetMechanical "a red and gold robot"
                  (or_introl eq_refl))).
Defined.

End Colours.

(* ------------------------------------------------------------------ *)
(** ** The meshes of a blueprint, one index after the other *)

Section Indexed.

Local Open Scope string_scope.

Lemma holds_from_nth (Q : Z -> MeshDescriptor.t -> Prop) (l : list MeshDescriptor.t)
      (i : Z) (k : nat) (mesh : MeshDescriptor.t) :
  holds_from Q i l -> List.nth_error l k = Some mesh -> Q (i + Z.of_nat k) mesh.
Proof.
  revert i k. induction l as [| m l IH]; intros i k Hh Hn.
  - destruct k; discriminate.
  - destruct Hh as [Hm Hl]. destruct k as [| k].
    + inversion Hn; subst. now rewrite Z.add_0_r.
    + replace (i + Z.of_nat (S k)) with (i + 1 + Z.of_nat k) by lia.
      apply (IH _ _ Hl Hn).
Qed.

Lemma composeMeshes_holds_from (Inv : Z -> Prop) (Q : Z -> MeshDescriptor.t -> Prop)
      (theme : ThemePreset.t) (prompt : string) (context : DescriptorContext.t) :
  (forall index, yields Inv (createMeshDescriptor theme prompt index context) (Q index)) ->
  forall remaining i,
    yields Inv (composeMeshes remaining i theme prompt context) (holds_from Q i).
Proof.
  intros HQ. induction remaining as [| n IH]; intros i; cbn [composeMeshes].
  - apply yields_ret. exact I.
  - apply yields_bind with (P := Q i); [apply HQ |].
    intros mesh Hm.
    apply yields_bind with (P := holds_from Q (i + 1)); [apply IH |].
    intros rest Hr. apply yields_ret. split; assumption.
Qed.

End Indexed.

(* ------------------------------------------------------------------ *)
(** ** Geometry, transform and modifiers from a live generator *)

Section LiveParts.

Local Open Scope Q_scope.

Lemma createGeometry_solid (kind : option GeometryKind) :
  yields live (createGeometry kind)
    (fun g => geometryType g = JS.nullish kind icosahedron /\ geometry_solid g).
Proof.
  destruct kind as [[] |]; unfold createGeometry;
    repeat step; apply yields_ret; (split; [reflexivity |]);
    unfold geometry_solid; repeat split; try lra; try lia; try reflexivity.
Qed.

(** X7. From a live generator state, [createGeometry] builds a primitive of
    the kind asked for, an icosahedron when the kind is [undefined], with
    every size positive, every segment count in its range (none below
    what the primitive needs), a torus tube thinner than the ring and a
    closed cylinder; the parameters are in the ranges of their kind. *)
Theorem createGeometry_well_formed (kind : option GeometryKind) (value : Z) :
  live value ->
  let g := fst (createGeometry kind value) in
  geometryType g = JS.nullish kind icosahedron
  /\ geometry_solid g
  /\ geometry_in_range g
  /\ live (snd (createGeometry kind value)).
Proof.
  intros Hl g.
  destruct (createGeometry_solid kind value Hl) as [[Ht Hs] Hl'].
  destruct (createGeometry_range kind value Hl) as [Hr _].
  auto.
Qed.

Lemma createGeometry_well_formed_witness :
  geometryType (fst (createGeometry (Some torus) 3116331073%Z)) = torus
  /\ geometry_solid (fst (createGeometry (Some torus) 3116331073%Z)).
Proof.
  assert (Hl : live 3116331073%Z) by (split; [lia | vm_compute; discriminate]).
  destruct (createGeometry_well_formed (Some torus) 3116331073%Z Hl) as [Ht [Hs _]].
  split; assumption.
Defined.

Lemma createTransform_range (index : Z) :
  index <> 0%Z -> yields live (createTransform index) transform_in_range.
Proof.
  intros Hi. unfold createTransform.
  destruct (Z.eqb_spec index 0) as [E | _]; [contradiction |].
  repeat step. apply yields_ret. unfold transform_in_range.
  cbn [MeshTransform.position MeshTransform.rotation MeshTransform.scale].
  tauto.
Qed.

(** X8. From a live generator state, the transform of a secondary mesh
    (index other than 0) has its position in
    [-1.2, 1.2] x [-0.2, 1.2] x [-1.1, 1.1], its rotation in
    [-0.4, 0.4] x [0, 2 pi] x [-0.4, 0.4] and each scale factor in
    [0.45, 0.9]: a secondary mesh is smaller than the primary one and is
    never mirrored or flattened. *)
Theorem createTransform_secondary (index value : Z) :
  live value -> index <> 0%Z ->
  transform_in_range (fst (createTransform index value))
  /\ live (snd (createTransform index value)).
Proof. intros Hl Hi. exact (createTransform_range index Hi value Hl). Qed.

Lemma createTransform_secondary_witness :
  transform_in_range (fst (createTransform 2 3116331073%Z)).
Proof.
  assert (Hl : live 3116331073%Z) by (split; [lia | vm_compute; discriminate]).
  assert (Hi : 2%Z <> 0%Z) by discriminate.
  exact (proj1 (createTransform_secondary 2 3116331073%Z Hl Hi)).
Defined.

End LiveParts.

Section LiveModifiers.

Local Open Scope Q_scope.

Lemma createModifiers_range (theme : ThemePreset.t) (bias : DetailBias) :
  In theme THEME_PRESETS ->
  yields live (createModifiers theme bias) modifiers_in_range.
Proof.
  intros Hin. unfold createModifiers. repeat step.
  apply yields_ret.
  match goal with H : unit_interval _ |- _ => destruct H end.
  unfold modifiers_in_range.
  destruct Hin as [<- | [<- | [<- | [<- | []]]]]; destruct bias;
    cbn [MeshModifiers.noiseAmplitude MeshModifiers.noiseFrequency
         MeshModifiers.noiseOffset MeshModifiers.twistStrength
         MeshModifiers.taperStrength MeshModifiers.squash
         ThemePreset.modifiers presetMechanical presetOrganic presetAero
         presetAbstract ThemeModifiers.noiseAmplitude ThemeModifiers.noiseFrequency
         ThemeModifiers.twistStrength ThemeModifiers.taperStrength
         ThemeModifiers.squash detailMultiplier];
    unfold JS.PI in *;
    repeat split; eexists; (split; [reflexivity |]); split; lra.
Qed.

(** X9. From a live generator state and for a theme of the catalog, the six
    modifiers of a mesh are all present; noise amplitude, twist, taper and
    squash are strictly between 0 and 1, the noise frequency is strictly
    between 0 and 4 and the noise offset is in [0, 2 pi), whatever the
    detail bias. *)
Theorem createModifiers_bounded (theme : ThemePreset.t) (bias : DetailBias) (value : Z) :
  In theme THEME_PRESETS -> live value ->
  modifiers_in_range (fst (createModifiers theme bias value))
  /\ live (snd (createModifiers theme bias value)).
Proof. intros Hin Hl. exact (createModifiers_range theme bias Hin value Hl). Qed.

Lemma createModifiers_bounded_witness :
  modifiers_in_range (fst (createModifiers presetOrganic organic 3116331073%Z)).
Proof.
  assert (Hl : live 3116331073%Z) by (split; [lia | vm_compute; discriminate]).
  assert (Hin : In presetOrganic THEME_PRESETS) by (right; left; reflexivity).
  exact (proj1 (createModifiers_bounded presetOrganic organic 3116331073%Z Hin Hl)).
Defined.

End LiveModifiers.

(* ------------------------------------------------------------------ *)
(** ** What a mesh is made of, from any generator state *)

Section Anatomy.

Local Open Scope string_scope.
Local Open Scope Z_scope.

Lemma createGeometry_type (kind : option GeometryKind) :
  yields (fun _ => True) (createGeometry kind)
    (fun g => geometryType g = JS.nullish kind icosahedron).
Proof.
  destruct kind as [[] |]; unfold createGeometry;
    repeat (eapply yields_bind; [apply yields_top | cbv beta; intros ? _]);
    apply yields_ret; reflexivity.
Qed.

Lemma paletteIndex_bounds (palette : list string) (index : Z) :
  yields (fun _ => True) (paletteIndex palette index)
    (fun chosen => 0 <= chosen <= Z.max 0 (JS.len palette - 1)
                   /\ (index = 0 -> chosen = 0)).
Proof.
  unfold paletteIndex.
  apply yields_bind with (P := fun raw => index = 0 -> raw = 0).
  - destruct (Z.eqb_spec index 0) as [E | E]; cbn [orb].
    + apply yields_ret. reflexivity.
    + destruct (JS.len palette =? 1).
      * apply yields_ret. reflexivity.
      * eapply yields_bind; [apply yields_top | cbv beta; intros ? _].
        apply yields_ret. intros H. contradiction.
  - intros raw Hraw. apply yields_ret. unfold clampZ. split; [lia |].
    intros H. rewrite (Hraw H). lia.
Qed.

Lemma createMaterial_fields (theme : ThemePreset.t) (palette : list string)
      (chosen index : Z) (context : DescriptorContext.t) :
  yields (fun _ => True) (createMaterial theme palette chosen index context)
    (fun material =>
       MaterialSpec.color material
       = match JS.at_ palette chosen with
         | Some c => Some c
         | None => JS.at_ (ThemePreset.palette theme) 0
         end
       /\ MaterialSpec.emissive material
          = (if index =? 0 then Some (DescriptorContext.accentColor context) else None)
       /\ MaterialSpec.useTexture material = (index =? 0)
       /\ (index <= 0 -> MaterialSpec.wireframe material = false)).
Proof.
  unfold createMaterial.
  apply yields_bind with (P := fun wire => index <= 0 -> wire = false).
  - destruct (Z.ltb_spec 0 index) as [H | H].
    + eapply yields_bind; [apply yields_top | cbv beta; intros ? _].
      apply yields_ret. lia.
    + apply yields_ret. reflexivity.
  - intros wire Hw. apply yields_ret. repeat split. exact Hw.
Qed.

Lemma createMeshName_shape (prompt : string) (kind : option GeometryKind) (index : Z) :
  yields (fun _ => True) (createMeshName prompt kind index)
    (fun name => exists prefix,
         name = JS.nullish prefix "undefined" ++ "-"
                  ++ JS.nullish (option_map geometryTitles kind) "Element" ++ "-"
                  ++ nameSuffix prompt index).
Proof.
  unfold createMeshName.
  eapply yields_bind; [apply yields_top | cbv beta; intros i _].
  apply yields_ret. exists (JS.at_ vectorNameSeeds i). reflexivity.
Qed.

Lemma createMeshDescriptor_shape (theme : ThemePreset.t) (prompt : string)
      (index : Z) (context : DescriptorContext.t) :
  yields (fun _ => True) (createMeshDescriptor theme prompt index context)
    (mesh_shape theme prompt context index).
Proof.
  unfold createMeshDescriptor. fold (meshPalette theme context).
  eapply yields_bind; [apply yields_top | cbv beta; intros kind _].
  eapply yields_bind; [apply createGeometry_type | cbv beta; intros geometry Hg].
  eapply yields_bind; [apply yields_top | cbv beta; intros transform _].
  eapply yields_bind; [apply paletteIndex_bounds | cbv beta; intros chosen Hc].
  eapply yields_bind; [apply yields_top | cbv beta; intros modifiers _].
  eapply yields_bind; [apply createMaterial_fields | cbv beta; intros material Hm].
  eapply yields_bind; [apply yields_top | cbv beta; intros suffix _].
  eapply yields_bind; [apply createMeshName_shape | cbv beta; intros name Hn].
  apply yields_ret. unfold mesh_shape.
  cbn [MeshDescriptor.id MeshDescriptor.name MeshDescriptor.geometry
       MeshDescriptor.material MeshDescriptor.modifiers].
  destruct Hn as [prefix Hn]. destruct Hm as [Hcol [Hem [Htex Hwire]]].
  split; [exists kind, suffix, prefix; auto |].
  split; [exists chosen; tauto |].
  repeat split; try assumption. discriminate.
Qed.

End Anatomy.

(* ------------------------------------------------------------------ *)
(** ** Materials, ids and names of a generic blueprint *)

Section GenericBlueprint.

Local Open Scope string_scope.
Local Open Scope Z_scope.

Lemma at_zero {A : Type} (l : list A) : JS.at_ l 0 = List.hd_error l.
Proof. destruct l; reflexivity. Qed.

(** The meshes of a generic blueprint, with the theme and palette they
    were made from. *)
Lemma generic_meshes_shape (P : option string) (spec : ProceduralModelSpec.t) :
  generateModelSpec P = Returned spec ->
  takesTemplatePath P = false ->
  let fallback := fallbackPrompt P in
  let hints := analyzePromptHints fallback in
  exists theme value,
    pickTheme fallback (Some hints) (createGenerator (createSeed fallback))
    = (Some theme, value)
    /\ In theme THEME_PRESETS
    /\ ProceduralModelSpec.accentColor spec = Some (snd (resolvePalette theme hints))
    /\ exists context,
        DescriptorContext.palette context = fst (resolvePalette theme hints)
        /\ DescriptorContext.accentColor context = snd (resolvePalette theme hints)
        /\ meshPalette theme context = fst (resolvePalette theme hints)
        /\ holds_from (mesh_shape theme fallback context) 0
                      (ProceduralModelSpec.meshes spec).
Proof.
  intros H T fallback hints.
  rewrite (generateModelSpec_generic P T) in H.
  destruct (composeGeneric_returned _ _ _ _ _ H) as [theme [value [Hp [Hin E]]]].
  exists theme, value. split; [exact Hp |]. split; [exact Hin |].
  split; [rewrite E; reflexivity |].
  eexists. split; [| split; [| split]];
    [| | | rewrite E; cbn [ProceduralModelSpec.meshes];
           apply (composeMeshes_holds_from (fun _ => True)); [| exact I];
           intros index; apply createMeshDescriptor_shape ].
  - reflexivity.
  - reflexivity.
  - unfold meshPalette. cbn [DescriptorContext.palette].
    pose proof (resolvePalette_long theme (fallbackPrompt P) Hin) as Hlen.
    replace (0 <? JS.len _) with true; [reflexivity |].
    symmetry. apply Z.ltb_lt. unfold JS.len. lia.
Qed.

(** X10. Colours of a generic blueprint: every mesh has a colour, and it is
    a colour of the resolved palette (the palette index is never out of
    bounds, from any seed); the first mesh has the first colour of the
    palette. *)
Theorem mesh_colours_from_palette (P : option string) (spec : ProceduralModelSpec.t) :
  generateModelSpec P = Returned spec ->
  takesTemplatePath P = false ->
  let fallback := fallbackPrompt P in
  let hints := analyzePromptHints fallback in
  exists theme value,
    pickTheme fallback (Some hints) (createGenerator (createSeed fallback))
    = (Some theme, value)
    /\ forall k mesh,
        List.nth_error (ProceduralModelSpec.meshes spec) k = Some mesh ->
        (exists colour,
            MaterialSpec.color (MeshDescriptor.material mesh) = Some colour
            /\ In colour (fst (resolvePalette theme hints)))
        /\ (k = 0%nat ->
            MaterialSpec.color (MeshDescriptor.material mesh)
            = List.hd_error (fst (resolvePalette theme hints))).
Proof.
  intros H T fallback hints.
  destruct (generic_meshes_shape P spec H T)
    as [theme [value [Hp [Hin [_ [context [_ [_ [Hpal Hall]]]]]]]]].
  fold fallback in Hp, Hpal, Hall. fold hints in Hp, Hpal.
  exists theme, value. split; [exact Hp |].
  intros k mesh Hk.
  pose proof (holds_from_nth _ _ _ _ _ Hall Hk) as Hm.
  destruct Hm as [_ [[chosen [Hc [H0 Hcol]]] _]].
  rewrite Hpal in Hc, Hcol.
  pose proof (resolvePalette_long theme fallback Hin) as Hlen. fold hints in Hlen.
  destruct (at_in_range (fst (resolvePalette theme hints)) chosen) as [c [Ec Hcin]].
  { unfold JS.len in *. lia. }
  rewrite Ec in Hcol. split; [exists c; auto |].
  intros ->. rewrite Hcol, <- Ec, (H0 eq_refl). apply at_zero.
Qed.

Lemma mesh_colours_from_palette_witness :
  exists spec mesh,
    generateModelSpec (Some "a red robot drone") = Returned spec
    /\ List.nth_error (ProceduralModelSpec.meshes spec) 0 = Some mesh
    /\ MaterialSpec.color (MeshDescriptor.material mesh) = Some "#ef4444".
Proof.
  destruct (generateModelSpec (Some "a red robot drone")) as [spec |] eqn:E;
    [| vm_compute in E; discriminate].
  assert (T : takesTemplatePath (Some "a red robot drone") = false)
    by (vm_compute; reflexivity).
  destruct (mesh_colours_from_palette _ spec E T) as [theme [value [Hp Hall]]].
  cbv zeta in Hp.
  destruct (List.nth_error (ProceduralModelSpec.meshes spec) 0) as [mesh |] eqn:Em.
  - exists spec, mesh. split; [reflexivity |]. split; [exact Em |].
    destruct (Hall 0%nat mesh Em) as [_ H0]. rewrite (H0 eq_refl).
    vm_compute in Hp. inversion Hp. subst theme. vm_compute. reflexivity.
  - exfalso. vm_compute in E. inversion E. subst spec. vm_compute in Em. discriminate.
Defined.

(** X11. Primary and secondary meshes of a generic blueprint, from any
    seed: the first mesh glows in the accent colour of the blueprint,
    carries the texture and is never a wireframe; the others have no
    emissive colour and no texture.  Every mesh has modifiers. *)
Theorem primary_mesh_material (P : option string) (spec : ProceduralModelSpec.t) :
  generateModelSpec P = Returned spec ->
  takesTemplatePath P = false ->
  forall k mesh,
    List.nth_error (ProceduralModelSpec.meshes spec) k = Some mesh ->
    let material := MeshDescriptor.material mesh in
    (k = 0%nat ->
     MaterialSpec.emissive material = ProceduralModelSpec.accentColor spec
     /\ MaterialSpec.useTexture material = true
     /\ MaterialSpec.wireframe material = false)
    /\ (k <> 0%nat ->
        MaterialSpec.emissive material = None
        /\ MaterialSpec.useTexture material = false)
    /\ MeshDescriptor.modifiers mesh <> None.
Proof.
  intros H T k mesh Hk material.
  destruct (generic_meshes_shape P spec H T)
    as [theme [value [_ [_ [Hacc [context [_ [Hca [_ Hall]]]]]]]]].
  pose proof (holds_from_nth _ _ _ _ _ Hall Hk) as Hm.
  destruct Hm as [_ [_ [Hem [Htex [Hwire Hmod]]]]].
  fold material in Hem, Htex, Hwire.
  rewrite Z.add_0_l in *.
  split; [| split; [| exact Hmod]].
  - intros ->. cbn in Hem, Htex, Hwire.
    rewrite Hem, Htex, Hacc, Hca. repeat split. apply Hwire. lia.
  - intros Hne.
    destruct (Z.eqb_spec (Z.of_nat k) 0) as [E | _]; [lia |]. auto.
Qed.

Lemma primary_mesh_material_witness :
  exists spec mesh,
    generateModelSpec (Some "a red robot drone") = Returned spec
    /\ List.nth_error (ProceduralModelSpec.meshes spec) 1 = Some mesh
    /\ MaterialSpec.emissive (MeshDescriptor.material mesh) = None.
Proof.
  destruct (generateModelSpec (Some "a red robot drone")) as [spec |] eqn:E;
    [| vm_compute in E; discriminate].
  assert (T : takesTemplatePath (Some "a red robot drone") = false)
    by (vm_compute; reflexivity).
  destruct (List.nth_error (ProceduralModelSpec.meshes spec) 1) as [mesh |] eqn:Em.
  - exists spec, mesh. split; [reflexivity |]. split; [exact Em |].
    destruct (primary_mesh_material _ spec E T 1%nat mesh Em) as [_ [H1 _]].
    apply H1. discriminate.
  - exfalso. vm_compute in E. inversion E. subst spec. vm_compute in Em. discriminate.
Defined.

End GenericBlueprint.

(* ------------------------------------------------------------------ *)
(** ** Mesh ids and names *)

Section Identity.

Local Open Scope string_scope.
Local Open Scope Z_scope.

Lemma generic_id_mark (theme : ThemePreset.t) (prompt : string)
      (context : DescriptorContext.t) (index : Z) (mesh : MeshDescriptor.t) :
  mesh_shape theme prompt context index mesh ->
  0 <= index <= 3 ->
  afterDash (MeshDescriptor.id mesh)
  = Some (ascii_of_nat (48 + Z.to_nat index)).
Proof.
  intros [[kind [suffix [prefix [Hid _]]]] _] Hi. rewrite Hid.
  assert (E : index = 0 \/ index = 1 \/ index = 2 \/ index = 3) by lia.
  destruct E as [-> | [-> | [-> | ->]]]; destruct kind as [[] |]; reflexivity.
Qed.

Lemma generic_meshes_length (P : option string) (spec : ProceduralModelSpec.t) :
  generateModelSpec P = Returned spec ->
  takesTemplatePath P = false ->
  (List.length (ProceduralModelSpec.meshes spec) <= 4)%nat.
Proof.
  intros H T. rewrite (generateModelSpec_generic P T) in H.
  destruct (composeGeneric_returned _ _ _ _ _ H) as [theme [value [_ [_ E]]]].
  rewrite E. cbn [ProceduralModelSpec.meshes]. rewrite composeMeshes_length.
  pose proof (clampZ_range
                (fst (meshCount (analyzePromptHints (fallbackPrompt P)) value))).
  lia.
Qed.

Lemma template_ids (palette : list string) (accent : option string) (value : Z) :
  List.map (fun mesh => sixth (MeshDescriptor.id mesh))
           (fst (cricketBatMeshes palette accent value))
  = [Some "l"%char; Some "a"%char; Some "a"%char]
    /\ List.map (fun mesh => String.get 4 (MeshDescriptor.id mesh))
                (fst (cricketBatMeshes palette accent value))
       = [Some "b"%char; Some "h"%char; Some "c"%char].
Proof.
  unfold cricketBatMeshes, bind, createTemplateId.
  destruct (rand value) as [r1 v1]. unfold ret at 1.
  destruct (rand v1) as [r2 v2]. unfold ret at 1.
  destruct (rand v2) as [r3 v3]. unfold ret. cbn [fst List.map MeshDescriptor.id].
  split; reflexivity.
Qed.

(** X12. Mesh ids are unique within a blueprint, on both paths and from
    any seed: the viewer keys its meshes by id. *)
Theorem mesh_ids_unique (P : option string) (spec : ProceduralModelSpec.t) :
  generateModelSpec P = Returned spec ->
  NoDup (List.map MeshDescriptor.id (ProceduralModelSpec.meshes spec)).
Proof.
  intros H.
  destruct (takesTemplatePath P) eqn:T.
  - destruct (generateModelSpec_template P T) as [spec' [Ht Hr]].
    rewrite Hr in H. inversion H; subst spec'. clear H Hr.
    destruct (tryTemplateSpec_meshes _ _ _ _ Ht)
      as [_ [_ [_ [palette [blade [handle [cap [E [E3 _]]]]]]]]].
    destruct (template_ids palette (ProceduralModelSpec.accentColor spec)
                (createGenerator (createSeed (fallbackPrompt P)))) as [_ Hmarks].
    rewrite <- E, E3 in Hmarks. rewrite E3.
    cbn [List.map] in *. inversion Hmarks as [[Hb Hh Hc]].
    repeat constructor; cbn [In]; intros F;
      repeat (destruct F as [F | F]; [| try contradiction]);
      try (rewrite F in Hb; rewrite Hb in Hh; discriminate);
      try (rewrite F in Hb; rewrite Hb in Hc; discriminate);
      try (rewrite F in Hh; rewrite Hh in Hc; discriminate);
      try (rewrite <- F in Hb; rewrite Hb in Hh; discriminate);
      try (rewrite <- F in Hb; rewrite Hb in Hc; discriminate);
      try (rewrite <- F in Hh; rewrite Hh in Hc; discriminate);
      try contradiction.
  - pose proof (generic_meshes_length P spec H T) as Hlen.
    destruct (generic_meshes_shape P spec H T)
      as [theme [value [_ [_ [_ [context [_ [_ [_ Hall]]]]]]]]].
    apply (proj2 (List.NoDup_nth_error _)).
    intros i j Hi Hij. rewrite List.length_map in Hi.
    rewrite !List.nth_error_map in Hij.
    destruct (List.nth_error (ProceduralModelSpec.meshes spec) i) as [mi |] eqn:Ei;
      [| apply List.nth_error_None in Ei; lia].
    destruct (List.nth_error (ProceduralModelSpec.meshes spec) j) as [mj |] eqn:Ej;
      [| discriminate].
    assert (Hj : (j < List.length (ProceduralModelSpec.meshes spec))%nat)
      by (apply List.nth_error_Some; congruence).
    pose proof (holds_from_nth _ _ _ _ _ Hall Ei) as Si.
    pose proof (holds_from_nth _ _ _ _ _ Hall Ej) as Sj.
    apply generic_id_mark in Si; [| lia]. apply generic_id_mark in Sj; [| lia].
    cbn [option_map] in Hij. inversion Hij as [Hid]. rewrite Hid in Si.
    rewrite Si in Sj. inversion Sj as [Hd].
    apply (f_equal nat_of_ascii) in Hd.
    rewrite !nat_ascii_embedding in Hd by lia. lia.
Qed.

Lemma mesh_ids_unique_witness :
  exists spec,
    generateModelSpec (Some "a red robot drone") = Returned spec
    /\ NoDup (List.map MeshDescriptor.id (ProceduralModelSpec.meshes spec)).
Proof.
  destruct (generateModelSpec (Some "a red robot drone")) as [spec |] eqn:E;
    [| vm_compute in E; discriminate].
  exists spec. split; [reflexivity |]. exact (mesh_ids_unique _ spec E).
Defined.

Lemma split_space_head (s : string) :
  exists w ws rest,
    JS.split_space s = w :: ws
    /\ s = w ++ rest
    /\ spaceless w = true
    /\ (rest = "" \/ exists r, rest = String " " r).
Proof.
  induction s as [| c t IH].
  - exists "", [], "". repeat split; auto.
  - destruct IH as [w [ws [rest [E [Et [Hw Hr]]]]]].
    cbn [JS.split_space]. destruct (Ascii.eqb_spec c " "%char) as [-> | Hc].
    + exists "", (JS.split_space t), (String " " t). repeat split. right. eauto.
    + rewrite E. exists (String c w), ws, rest.
      split; [reflexivity |]. split; [cbn [append]; now rewrite <- Et |].
      split; [| exact Hr].
      cbn [spaceless]. rewrite Hw.
      destruct (Ascii.eqb_spec c " "%char); [contradiction | reflexivity].
Qed.

(** The first word of a text that is not made of spaces only. *)
Lemma first_word (s : string) :
  (exists c, In c (list_ascii_of_string s) /\ c <> " "%char) ->
  exists n word rest,
    List.find JS.truthy (JS.split_space s) = Some word
    /\ s = spaces n ++ word ++ rest
    /\ word <> ""
    /\ spaceless word = true
    /\ (rest = "" \/ exists r, rest = String " " r).
Proof.
  induction s as [| c t IH]; intros [x [Hx Hne]].
  - destruct Hx.
  - cbn [JS.split_space]. destruct (Ascii.eqb_spec c " "%char) as [-> | Hc].
    + cbn [List.find JS.truthy].
      destruct IH as [n [word [rest [F [E [Hw [Hs Hr]]]]]]].
      { destruct Hx as [Hx | Hx]; [congruence | eauto]. }
      exists (S n), word, rest. split; [exact F |].
      split; [cbn [spaces append]; now rewrite <- E |]. auto.
    + destruct (split_space_head t) as [w [ws [rest [E [Et [Hw Hr]]]]]].
      rewrite E. cbn [List.find JS.truthy].
      exists 0%nat, (String c w), rest. split; [reflexivity |].
      split; [cbn [spaces append]; now rewrite <- Et |].
      split; [discriminate |]. split; [| exact Hr].
      cbn [spaceless]. rewrite Hw.
      destruct (Ascii.eqb_spec c " "%char); [contradiction | reflexivity].
Qed.

Lemma trimStart_char (s : string) :
  JS.trimStart s <> "" ->
  exists c, In c (list_ascii_of_string s) /\ c <> " "%char.
Proof.
  induction s as [| c t IH]; cbn [JS.trimStart]; [congruence |].
  destruct (JS.isWhiteSpace c) eqn:W.
  - intros H. destruct (IH H) as [x [Hx Hne]]. exists x. split; [right; exact Hx | exact Hne].
  - intros _. exists c. split; [left; reflexivity |].
    intros ->. vm_compute in W. discriminate.
Qed.

Lemma fallbackPrompt_char (P : option string) :
  exists c, In c (list_ascii_of_string (fallbackPrompt P)) /\ c <> " "%char.
Proof.
  assert (D : exists c, In c (list_ascii_of_string "abstract artifact")
                        /\ c <> " "%char)
    by (exists "a"%char; split; [left; reflexivity | discriminate]).
  destruct P as [p |]; cbn [fallbackPrompt]; [| exact D].
  destruct (Z.ltb_spec 0 (Z.of_nat (String.length (JS.trim p)))) as [H | _]; [| exact D].
  apply trimStart_char. intros E. unfold JS.trim in H. rewrite E in H.
  cbn in H. lia.
Qed.

(** X13. Names of the meshes of a generic blueprint, from any seed: the
    name of the first mesh ends in "-Prime"; the names of the others end
    in a dash and the first word of the prompt the blueprint records,
    that is its first run of characters other than the space, which is
    never empty: the stand-in 'Artifact' is never used. *)
Theorem mesh_names_end_in_first_word (P : option string) (spec : ProceduralModelSpec.t) :
  generateModelSpec P = Returned spec ->
  takesTemplatePath P = false ->
  exists n word rest,
    ProceduralModelSpec.prompt spec = spaces n ++ word ++ rest
    /\ word <> ""
    /\ spaceless word = true
    /\ (rest = "" \/ exists r, rest = String " " r)
    /\ forall k mesh,
        List.nth_error (ProceduralModelSpec.meshes spec) k = Some mesh ->
        exists prefix title,
          MeshDescriptor.name mesh
          = prefix ++ "-" ++ title ++ "-"
              ++ match k with O => "Prime" | S _ => word end.
Proof.
  intros H T.
  destruct (first_word (fallbackPrompt P) (fallbackPrompt_char P))
    as [n [word [rest [F [E [Hw [Hs Hr]]]]]]].
  destruct (generic_meshes_shape P spec H T)
    as [theme [value [_ [_ [_ [context [_ [_ [_ Hall]]]]]]]]].
  destruct (returned_prompt_seed P spec H) as [Hprompt _].
  exists n, word, rest. rewrite Hprompt.
  split; [exact E |]. split; [exact Hw |]. split; [exact Hs |]. split; [exact Hr |].
  intros k mesh Hk.
  pose proof (holds_from_nth _ _ _ _ _ Hall Hk) as Hm.
  destruct Hm as [[kind [suffix [prefix [_ [Hname _]]]]] _].
  rewrite Hname. do 2 eexists. do 4 f_equal.
  unfold nameSuffix. rewrite F. cbn [JS.nullish].
  destruct k; reflexivity.
Qed.

Lemma mesh_names_end_in_first_word_witness :
  exists spec mesh,
    generateModelSpec (Some "a red robot drone") = Returned spec
    /\ List.nth_error (ProceduralModelSpec.meshes spec) 1 = Some mesh
    /\ exists prefix title,
        MeshDescriptor.name mesh = prefix ++ "-" ++ title ++ "-a".
Proof.
  destruct (generateModelSpec (Some "a red robot drone")) as [spec |] eqn:E;
    [| vm_compute in E; discriminate].
  assert (T : takesTemplatePath (Some "a red robot drone") = false)
    by (vm_compute; reflexivity).
  destruct (List.nth_error (ProceduralModelSpec.meshes spec) 1) as [mesh |] eqn:Em.
  - exists spec, mesh. split; [reflexivity |]. split; [exact Em |].
    destruct (mesh_names_end_in_first_word _ spec E T)
      as [n [word [rest [Hp [Hw [Hs [Hr Hall]]]]]]].
    destruct (Hall 1%nat mesh Em) as [prefix [title Hn]].
    exists prefix, title. rewrite Hn.
    vm_compute in E. inversion E as [Es]. rewrite <- Es in Hp.
    cbn [ProceduralModelSpec.prompt] in Hp.
    destruct n as [| n]; [| cbn in Hp; discriminate].
    cbn [spaces append] in Hp.
    destruct word as [| c word]; [contradiction |].
    cbn [append] in Hp. injection Hp as Hc Hrest. subst c.
    destruct word as [| d word]; [reflexivity |].
    cbn [append] in Hrest. injection Hrest as Hd Hrest. subst d.
    cbn in Hs. discriminate.
  - exfalso. vm_compute in E. inversion E. subst spec. vm_compute in Em. discriminate.
Defined.

End Identity.

(* ------------------------------------------------------------------ *)
(** ** A blueprint from a usable seed *)

Section LiveBlueprint.

Local Open Scope string_scope.
Local Open Scope Z_scope.

Lemma round_scaled (r : Q) :
  unit_interval r -> 0 <= JS.round (r * 1000000) <= 1000000.
Proof.
  intros [H0 H1]. unfold JS.round. split.
  - rewrite <- (Qfloor_Z 0). apply Qfloor_resp_le. change (inject_Z 0) with 0%Q. lra.
  - apply Z.lt_succ_r. rewrite Zlt_Qlt.
    apply Qle_lt_trans with (y := (r * 1000000 + (1 # 2))%Q); [apply Qfloor_le |].
    change (inject_Z (Z.succ 1000000)) with 1000001%Q. lra.
Qed.

Lemma geometryKind_pool (theme : ThemePreset.t) (index : Z)
      (context : DescriptorContext.t) :
  In theme THEME_PRESETS ->
  yields live (geometryKind theme index context)
    (fun picked => exists kind,
         picked = Some kind /\ In kind (geometryPool theme index context)).
Proof.
  intros Hin. unfold geometryKind.
  pose proof (geometryPool_length theme context index Hin) as Hlen.
  apply yields_bind
    with (P := fun i => 0 <= i < JS.len (geometryPool theme index context)).
  - apply yields_randomIndex. lia.
  - intros i Hi.
    destruct (at_in_range _ i Hi) as [kind [E Hk]]. rewrite E.
    apply yields_ret. exists kind. auto.
Qed.

Lemma createMeshName_catalog (prompt : string) (kind : GeometryKind) (index : Z) :
  yields live (createMeshName prompt (Some kind) index)
    (fun name => exists prefix,
         In prefix vectorNameSeeds
         /\ name = prefix ++ "-" ++ geometryTitles kind ++ "-" ++ nameSuffix prompt index).
Proof.
  unfold createMeshName.
  apply yields_bind with (P := fun i => 0 <= i < JS.len vectorNameSeeds).
  - apply yields_randomIndex. reflexivity.
  - intros i Hi. destruct (at_in_range _ i Hi) as [prefix [E Hp]]. rewrite E.
    apply yields_ret. exists prefix. split; [exact Hp |].
    unfold nameSuffix. reflexivity.
Qed.

Lemma paletteIndex_secondary (palette : list string) (index : Z) :
  index <> 0 -> 2 <= JS.len palette ->
  yields live (paletteIndex palette index) (fun chosen => 1 <= chosen < JS.len palette).
Proof.
  intros Hi Hlen. unfold paletteIndex.
  destruct (Z.eqb_spec index 0) as [E | _]; [contradiction |].
  destruct (Z.eqb_spec (JS.len palette) 1) as [E | _]; [lia |].
  cbn [orb].
  apply yields_bind with (P := fun raw => 1 <= raw < JS.len palette).
  - apply yields_bind with (P := fun i => 0 <= i < Z.max 1 (JS.len palette - 1)).
    + apply yields_randomIndex. lia.
    + intros i Hr. apply yields_ret. lia.
  - intros raw Hraw. apply yields_ret. unfold clampZ. lia.
Qed.

Lemma createMaterial_colour (theme : ThemePreset.t) (palette : list string)
      (chosen index : Z) (context : DescriptorContext.t) :
  0 <= chosen < JS.len palette ->
  yields live (createMaterial theme palette chosen index context)
    (fun material => MaterialSpec.color material = JS.at_ palette chosen).
Proof.
  intros Hc. unfold createMaterial.
  destruct (at_in_range palette chosen Hc) as [c [E _]]. rewrite E.
  apply yields_bind with (P := fun _ => True).
  - destruct (0 <? index).
    + apply yields_rand_map.
    + apply yields_ret. exact I.
  - intros wire _. apply yields_ret. reflexivity.
Qed.

Lemma createMeshDescriptor_consistent (theme : ThemePreset.t) (prompt : string)
      (index : Z) (context : DescriptorContext.t) :
  In theme THEME_PRESETS ->
  yields live (createMeshDescriptor theme prompt index context)
    (mesh_consistent theme prompt context index).
Proof.
  intros Hin. unfold createMeshDescriptor. fold (meshPalette theme context).
  eapply yields_bind; [apply (geometryKind_pool theme index context Hin) |].
  cbv beta. intros picked [kind [-> Hkind]].
  eapply yields_bind; [apply (createGeometry_solid (Some kind)) |].
  cbv beta. intros geometry [Htype Hsolid]. cbn [JS.nullish] in Htype.
  apply yields_bind
    with (P := fun transform => index <> 0 -> transform_in_range transform).
  { destruct (Z.eq_dec index 0) as [E | E].
    - eapply yields_weaken; [apply createTransform_live |]. intros ? _ ?. contradiction.
    - eapply yields_weaken; [apply (createTransform_range index E) |]. auto. }
  intros transform Htransform.
  apply yields_bind
    with (P := fun chosen =>
                 index <> 0 -> 2 <= JS.len (meshPalette theme context) ->
                 1 <= chosen < JS.len (meshPalette theme context)).
  { destruct (Z.eq_dec index 0) as [E | E].
    - eapply yields_weaken; [apply paletteIndex_live |]. intros ? _ ?. contradiction.
    - destruct (Z_le_dec 2 (JS.len (meshPalette theme context))) as [L | L].
      + eapply yields_weaken; [apply (paletteIndex_secondary _ index E L) |]. auto.
      + eapply yields_weaken; [apply paletteIndex_live |]. intros ? _ _ ?. contradiction. }
  intros chosen Hchosen.
  eapply yields_bind;
    [apply (createModifiers_range theme (DescriptorContext.detailBias context) Hin) |].
  cbv beta. intros modifiers Hmod.
  apply yields_bind
    with (P := fun material =>
                 index <> 0 -> 2 <= JS.len (meshPalette theme context) ->
                 MaterialSpec.color material = JS.at_ (meshPalette theme context) chosen).
  { destruct (Z.eq_dec index 0) as [E | E].
    - eapply yields_weaken; [apply createMaterial_range |]. intros ? _ ?. contradiction.
    - destruct (Z_le_dec 2 (JS.len (meshPalette theme context))) as [L | L].
      + eapply yields_weaken; [apply createMaterial_colour |].
        * specialize (Hchosen E L). lia.
        * auto.
      + eapply yields_weaken; [apply createMaterial_range |].
        intros ? _ _ ?. contradiction. }
  intros material Hmat.
  apply yields_bind with (P := fun suffix => 0 <= suffix <= 1000000).
  { apply yields_bind with (P := unit_interval); [exact yields_rand |].
    intros r Hr. apply yields_ret. apply round_scaled. exact Hr. }
  intros suffix Hsuffix.
  eapply yields_bind; [apply (createMeshName_catalog prompt kind index) |].
  cbv beta. intros name [prefix [Hprefix Hname]].
  apply yields_ret. unfold mesh_consistent.
  cbn [MeshDescriptor.geometry MeshDescriptor.id MeshDescriptor.name
       MeshDescriptor.transform MeshDescriptor.modifiers MeshDescriptor.material
       option_map JS.nullish].
  rewrite Htype.
  split; [exact Hkind |]. split; [exact Hsolid |].
  split; [exists suffix; auto |]. split; [exists prefix; auto |].
  split; [exact Htransform |]. split; [exists modifiers; auto |].
  intros Hi Hl. exists chosen. auto.
Qed.

(** X14. A generic blueprint from a usable seed (one that is not a
    multiple of 2147483647): for every mesh, the geometry is a solid of a
    kind taken from the pool of its index, the id starts with that kind
    and the index and ends in an integer of 0 .. 1000000, the name is a
    catalog prefix, the title of that kind and the suffix, the modifiers
    are all present and in range, and a secondary mesh has its transform
    in range and a colour of the palette other than the first entry. *)
Theorem usable_seed_blueprint (P : option string) (spec : ProceduralModelSpec.t) :
  live (createSeed (fallbackPrompt P)) ->
  takesTemplatePath P = false ->
  generateModelSpec P = Returned spec ->
  let fallback := fallbackPrompt P in
  let hints := analyzePromptHints fallback in
  exists theme context,
    In theme THEME_PRESETS
    /\ fst (pickTheme fallback (Some hints) (createGenerator (createSeed fallback)))
       = Some theme
    /\ context = DescriptorContext.mk
                   (fst (resolvePalette theme hints)) (snd (resolvePalette theme hints))
                   (PromptHints.geometryPreference hints) (PromptHints.detailBias hints)
    /\ meshPalette theme context = fst (resolvePalette theme hints)
    /\ forall k mesh,
        List.nth_error (ProceduralModelSpec.meshes spec) k = Some mesh ->
        mesh_consistent theme fallback context (Z.of_nat k) mesh.
Proof.
  intros Hl T H fallback hints.
  rewrite (generateModelSpec_generic P T) in H.
  destruct (composeGeneric_returned _ _ _ _ _ H) as [theme [value [Hp [Hin E]]]].
  fold fallback in Hp, E. fold hints in Hp, E.
  eexists theme, _. split; [exact Hin |]. split; [rewrite Hp; reflexivity |].
  split; [reflexivity |].
  split.
  { unfold meshPalette. cbn [DescriptorContext.palette].
    pose proof (resolvePalette_long theme fallback Hin) as Hlen. fold hints in Hlen.
    replace (0 <? JS.len _) with true; [reflexivity |].
    symmetry. apply Z.ltb_lt. unfold JS.len. lia. }
  intros k mesh Hk. rewrite E in Hk. cbn [ProceduralModelSpec.meshes] in Hk.
  assert (L1 : live value).
  { pose proof (pickTheme_live fallback hints
                  (createGenerator (createSeed fallback)) Hl) as [_ L].
    rewrite Hp in L. exact L. }
  assert (L2 : live (snd (meshCount hints value))).
  { exact (proj2 (meshCount_live hints value L1)). }
  match type of Hk with
  | nth_error (fst (composeMeshes ?n 0 _ _ ?ctx _)) _ = _ =>
      pose proof (composeMeshes_holds_from live
                    (mesh_consistent theme fallback ctx) theme fallback ctx
                    (fun index =>
                       createMeshDescriptor_consistent theme fallback index ctx Hin)
                    n 0 _ L2) as [Hall _]
  end.
  exact (holds_from_nth _ _ _ _ _ Hall Hk).
Qed.

Lemma usable_seed_blueprint_witness :
  exists spec mesh,
    generateModelSpec (Some "a red robot drone") = Returned spec
    /\ List.nth_error (ProceduralModelSpec.meshes spec) 1 = Some mesh
    /\ geometry_solid (MeshDescriptor.geometry mesh).
Proof.
  destruct (generateModelSpec (Some "a red robot drone")) as [spec |] eqn:E;
    [| vm_compute in E; discriminate].
  assert (T : takesTemplatePath (Some "a red robot drone") = false)
    by (vm_compute; reflexivity).
  assert (Hl : live (createSeed (fallbackPrompt (Some "a red robot drone"))))
    by (split; [vm_compute; discriminate | vm_compute; discriminate]).
  destruct (List.nth_error (ProceduralModelSpec.meshes spec) 1) as [mesh |] eqn:Em.
  - exists spec, mesh. split; [reflexivity |]. split; [exact Em |].
    destruct (usable_seed_blueprint _ spec Hl T E) as [theme [context [_ [_ [_ [_ Hall]]]]]].
    exact (proj1 (proj2 (Hall 1%nat mesh Em))).
  - exfalso. vm_compute in E. inversion E. subst spec. vm_compute in Em. discriminate.
Defined.

End LiveBlueprint.

(* ------------------------------------------------------------------ *)
(** ** Colours of the cricket bat *)

Section TemplateColours.

Local Open Scope string_scope.
Local Open Scope Z_scope.

(** The blueprint of the only template. *)
Lemma tryTemplateSpec_bat (prompt : string) (hints : PromptHints.t) (seed : Z)
      (spec : ProceduralModelSpec.t) :
  tryTemplateSpec prompt hints seed = Some spec ->
  let palette :=
    match PromptHints.paletteOverride hints with
    | Some override =>
        if 0 <? JS.len override then override else TEMPLATE_DEFAULT_PALETTE
    | None => TEMPLATE_DEFAULT_PALETTE
    end in
  let accentColor :=
    match PromptHints.accentColor hints with
    | Some c => Some c
    | None => JS.at_ palette 0
    end in
  spec = ProceduralModelSpec.mk prompt seed studio accentColor
           (fst (cricketBatMeshes palette accentColor (createGenerator seed))).
Proof.
  unfold tryTemplateSpec.
  destruct (List.find _ SHAPE_TEMPLATES) as [template |] eqn:F; [| discriminate].
  apply List.find_some in F. destruct F as [Hin _].
  destruct Hin as [<- | []].
  intros H.
  exact (eq_sym (f_equal (fun o => match o with Some s => s | None => spec end) H)).
Qed.

Lemma cricketBatMeshes_colours (palette : list string) (accent : option string)
      (value : Z) :
  let colors := if 0 <? JS.len palette then palette else TEMPLATE_DEFAULT_PALETTE in
  let sticker := JS.nullish accent (JS.nullish (JS.at_ colors 2) "#f97316") in
  exists blade handle cap,
    fst (cricketBatMeshes palette accent value) = [blade; handle; cap]
    /\ MaterialSpec.color (MeshDescriptor.material blade)
       = Some (JS.nullish (JS.at_ colors 0) "#d4b48c")
    /\ MaterialSpec.color (MeshDescriptor.material cap) = Some sticker
    /\ MaterialSpec.emissive (MeshDescriptor.material cap) = accent
    /\ MaterialSpec.color (MeshDescriptor.material handle)
       = Some (JS.nullish (JS.at_ colors 1) "#171717")
    /\ MaterialSpec.emissive (MeshDescriptor.material blade) = None
    /\ MaterialSpec.emissive (MeshDescriptor.material handle) = None
    /\ List.map (fun mesh => MaterialSpec.useTexture (MeshDescriptor.material mesh))
                [blade; handle; cap] = [true; false; false].
Proof.
  intros colors sticker. unfold cricketBatMeshes, bind, createTemplateId.
  destruct (rand value) as [r1 v1]. unfold ret at 1.
  destruct (rand v1) as [r2 v2]. unfold ret at 1.
  destruct (rand v2) as [r3 v3]. unfold ret. cbn [fst].
  do 3 eexists. split; [reflexivity |].
  cbn [MeshDescriptor.material MaterialSpec.color MaterialSpec.emissive
       MaterialSpec.useTexture List.map].
  repeat split.
Qed.

(** X15. Colours on the template path: the environment is the studio
    whatever the prompt says; the accent is the first colour the prompt
    names, or the wood colour "#d4b48c" when it names none; the blade and
    the logo panel both have the accent as their colour (the fallbacks
    [colors[2]] and "#f97316" of the panel are never used) and the panel
    glows in it; the handle has the second named colour, "#171717" when
    the prompt names one colour only, and "#1f1f1f" when it names none.
    Only the blade carries the texture. *)
Theorem template_colours (P : option string) (spec : ProceduralModelSpec.t) :
  takesTemplatePath P = true ->
  generateModelSpec P = Returned spec ->
  let hinted := hintedColours (fallbackPrompt P) in
  let accent := JS.nullish (List.hd_error hinted) "#d4b48c" in
  ProceduralModelSpec.environment spec = studio
  /\ ProceduralModelSpec.accentColor spec = Some accent
  /\ exists blade handle cap,
      ProceduralModelSpec.meshes spec = [blade; handle; cap]
      /\ MaterialSpec.color (MeshDescriptor.material blade) = Some accent
      /\ MaterialSpec.color (MeshDescriptor.material cap) = Some accent
      /\ MaterialSpec.emissive (MeshDescriptor.material cap) = Some accent
      /\ MaterialSpec.color (MeshDescriptor.material handle) = Some (gripColour hinted)
      /\ MaterialSpec.emissive (MeshDescriptor.material blade) = None
      /\ MaterialSpec.emissive (MeshDescriptor.material handle) = None
      /\ List.map (fun mesh => MaterialSpec.useTexture (MeshDescriptor.material mesh))
                  [blade; handle; cap] = [true; false; false].
Proof.
  intros T H. cbv zeta.
  destruct (generateModelSpec_template P T) as [spec' [Ht Hr]].
  rewrite Hr in H. inversion H; subst spec'. clear H Hr.
  apply tryTemplateSpec_bat in Ht. cbv zeta in Ht.
  rewrite hints_paletteOverride, hints_accentColor in Ht.
  revert Ht. generalize (hintedColours (fallbackPrompt P)) as hinted.
  generalize (createGenerator (createSeed (fallbackPrompt P))) as value.
  intros value hinted Ht. rewrite Ht. clear Ht.
  cbn [ProceduralModelSpec.environment ProceduralModelSpec.accentColor
       ProceduralModelSpec.meshes].
  split; [reflexivity |].
  destruct hinted as [| c1 [| c2 l]];
    cbn [List.hd_error JS.nullish gripColour];
    (split; [reflexivity |]);
    match goal with
    | |- exists blade handle cap, fst (cricketBatMeshes ?palette ?acc ?v) = _ /\ _ =>
        destruct (cricketBatMeshes_colours palette acc v)
          as [blade [handle [cap [E [Hb [Hc [He [Hh [Hbe [Hhe Htex]]]]]]]]]]
    end;
    exists blade, handle, cap; (split; [exact E |]);
    rewrite Hb, Hc, He, Hh; repeat split; assumption.
Qed.

Lemma template_colours_witness :
  exists spec,
    generateModelSpec (Some "a red cricket bat in space") = Returned spec
    /\ ProceduralModelSpec.environment spec = studio
    /\ ProceduralModelSpec.accentColor spec = Some "#ef4444".
Proof.
  destruct (generateModelSpec (Some "a red cricket bat in space")) as [spec |] eqn:E;
    [| vm_compute in E; discriminate].
  assert (T : takesTemplatePath (Some "a red cricket bat in space") = true)
    by (vm_compute; reflexivity).
  destruct (template_colours _ spec T E) as [He [Ha _]].
  exists spec. split; [reflexivity |]. split; [exact He |].
  rewrite Ha. vm_compute. reflexivity.
Defined.

End TemplateColours.

Section Words.

Local Open Scope string_scope.

Lemma wsWords_head (c : ascii) (t : string) :
  JS.isWhiteSpace c = false ->
  exists w ws, wsWords (String c t) = String c w :: ws.
Proof.
  intros Hc. cbn [wsWords]. rewrite Hc.
  destruct t as [| d t']; [eauto |].
  destruct (JS.isWhiteSpace d); [eauto |].
  destruct (wsWords (String d t')); eauto.
Qed.

Lemma wsWords_truthy (s : string) : Forall (fun w => w <> EmptyString) (wsWords s).
Proof.
  induction s as [| c t IH]; [constructor |].
  cbn [wsWords]. destruct (JS.isWhiteSpace c); [exact IH |].
  destruct t as [| d t']; [repeat constructor; discriminate |].
  destruct (JS.isWhiteSpace d).
  - constructor; [discriminate | exact IH].
  - destruct (wsWords (String d t')) as [| w ws].
    + repeat constructor; discriminate.
    + inversion IH; subst. constructor; [discriminate | assumption].
Qed.

Lemma joinSpace_empty (words : list string) :
  Forall (fun w => w <> EmptyString) words ->
  joinSpace words = EmptyString -> words = [].
Proof.
  destruct words as [| w ws]; [reflexivity |].
  intros H E. inversion H as [| ? ? Hw _]; subst.
  destruct w; [contradiction |]. destruct ws; discriminate.
Qed.

Lemma joinSpace_cons (c : ascii) (w : string) (ws : list string) :
  joinSpace (String c w :: ws) = String c (joinSpace (w :: ws)).
Proof. destruct ws; reflexivity. Qed.

Lemma trimEnd_cons (c : ascii) (t : string) :
  JS.isWhiteSpace c = false -> JS.trimEnd (String c t) = String c (JS.trimEnd t).
Proof. intros Hc. cbn [JS.trimEnd]. rewrite Hc. destruct (JS.trimEnd t); reflexivity. Qed.

Lemma trimEnd_space (t : string) :
  JS.trimEnd (String " " t)
  = match JS.trimEnd t with
    | EmptyString => EmptyString
    | rest => String " " rest
    end.
Proof. cbn [JS.trimEnd]. destruct (JS.trimEnd t); reflexivity. Qed.

Lemma collapse_trimEnd (s : string) :
  JS.trimEnd (collapseWhiteSpace true s) = joinSpace (wsWords s)
  /\ JS.trimEnd (collapseWhiteSpace false s) = leadSpace s ++ joinSpace (wsWords s).
Proof.
  induction s as [| c t [IH1 IH2]]; [split; reflexivity |].
  pose proof (wsWords_truthy t) as Ht.
  unfold leadSpace. cbn [collapseWhiteSpace wsWords].
  destruct (JS.isWhiteSpace c) eqn:Hc.
  - split; [exact IH1 |].
    rewrite trimEnd_space, IH1.
    destruct (wsWords t) as [| w ws] eqn:E; [reflexivity |].
    destruct (joinSpace (w :: ws)) eqn:J; [| reflexivity].
    apply joinSpace_empty in J; [discriminate | exact Ht].
  - rewrite (trimEnd_cons c _ Hc), IH2.
    assert (G : String c (leadSpace t ++ joinSpace (wsWords t))
                = joinSpace
                    match t with
                    | EmptyString => [String c EmptyString]
                    | String d _ =>
                        if JS.isWhiteSpace d then String c EmptyString :: wsWords t
                        else match wsWords t with
                             | w :: ws => String c w :: ws
                             | [] => [String c EmptyString]
                             end
                    end).
    { unfold leadSpace. destruct t as [| d t']; [reflexivity |].
      destruct (JS.isWhiteSpace d) eqn:Hd.
      - destruct (wsWords (String d t')) as [| w ws]; reflexivity.
      - destruct (wsWords_head d t' Hd) as [w [ws E]]. rewrite E.
        rewrite (joinSpace_cons c (String d w) ws). reflexivity. }
    split; [exact G |].
    destruct (match t with
              | EmptyString => [String c EmptyString]
              | String d _ => _
              end); exact G.
Qed.

Lemma collapse_trimStart (s : string) :
  JS.trimStart (collapseWhiteSpace false s) = collapseWhiteSpace true s.
Proof.
  destruct s as [| c t]; [reflexivity |].
  cbn [collapseWhiteSpace]. destruct (JS.isWhiteSpace c) eqn:Hc.
  - cbn [JS.trimStart]. change (JS.isWhiteSpace " ") with true. cbv iota.
    clear Hc c. induction t as [| d t IH]; [reflexivity |].
    cbn [collapseWhiteSpace]. destruct (JS.isWhiteSpace d) eqn:Hd; [exact IH |].
    cbn [JS.trimStart]. rewrite Hd. reflexivity.
  - cbn [JS.trimStart]. rewrite Hc. reflexivity.
Qed.

(** The cleaned prompt is the words of the prompt, one space apart. *)
Lemma cleaned_words (prompt : string) :
  JS.trim (collapseWhiteSpace false prompt) = joinSpace (wsWords prompt).
Proof.
  unfold JS.trim. rewrite collapse_trimStart. apply collapse_trimEnd.
Qed.

Lemma trimStart_words (s : string) : wsWords (JS.trimStart s) = wsWords s.
Proof.
  induction s as [| c t IH]; [reflexivity |].
  cbn [JS.trimStart]. destruct (JS.isWhiteSpace c) eqn:Hc; [| reflexivity].
  rewrite IH. cbn [wsWords]. rewrite Hc. reflexivity.
Qed.




End Words.

(* ------------------------------------------------------------------ *)
(** ** Properties of the server *)

Section ServerProperties.

Local Open Scope string_scope.
Local Open Scope Z_scope.

Lemma append_assoc3 (a b c : string) : (a ++ b) ++ c = a ++ b ++ c.
Proof. induction a as [| x a IH]; [reflexivity |]. cbn [append]. now rewrite IH. Qed.

Lemma endsWithDot_append (a b : string) :
  b <> EmptyString -> endsWithDot (a ++ b) = endsWithDot b.
Proof.
  intros Hb. induction a as [| x a IH]; [reflexivity |].
  cbn [append endsWithDot].
  destruct (a ++ b) eqn:E; [| exact IH].
  destruct a; [cbn in E; contradiction | discriminate].
Qed.

Lemma joinSpace_truthy (w : string) (ws : list string) :
  Forall (fun x => x <> EmptyString) (w :: ws) -> joinSpace (w :: ws) <> EmptyString.
Proof.
  intros H E. apply joinSpace_empty in E; [discriminate | exact H].
Qed.

Lemma endsWithDot_join (w : string) (ws : list string) :
  Forall (fun x => x <> EmptyString) (w :: ws) ->
  endsWithDot (joinSpace (w :: ws)) = endsWithDot (List.last (w :: ws) EmptyString).
Proof.
  revert w. induction ws as [| v ws IH]; intros w H; [reflexivity |].
  inversion H as [| ? ? Hw Hrest]; subst.
  change (joinSpace (w :: v :: ws)) with (w ++ " " ++ joinSpace (v :: ws)).
  rewrite endsWithDot_append by (discriminate).
  change (" " ++ joinSpace (v :: ws)) with (String " " (joinSpace (v :: ws))).
  cbn [endsWithDot List.last].
  pose proof (joinSpace_truthy v ws Hrest) as Hj.
  destruct (joinSpace (v :: ws)) eqn:E; [contradiction |].
  rewrite <- E. apply IH. exact Hrest.
Qed.

(** X16. The local prompt enhancement depends on the words of the prompt
    only: a prompt without a word gives the default sentence; otherwise
    the result is the words one space apart, a full stop unless the last
    word ends in one, and the fixed closing sentence.  Prompts with the
    same words, whatever their white space, get the same enhancement. *)
Theorem buildLocalPromptEnhancement_words (prompt : string) :
  buildLocalPromptEnhancement prompt
  = match wsWords prompt with
    | [] => enhancementDefault
    | words =>
        joinSpace words
          ++ (if endsWithDot (List.last words EmptyString) then EmptyString else ".")
          ++ enhancementSuffix
    end
  /\ forall other,
      wsWords other = wsWords prompt ->
      buildLocalPromptEnhancement other = buildLocalPromptEnhancement prompt.
Proof.
  assert (G : forall p,
             buildLocalPromptEnhancement p
             = match wsWords p with
               | [] => enhancementDefault
               | words =>
                   joinSpace words
                     ++ (if endsWithDot (List.last words EmptyString)
                         then EmptyString else ".")
                     ++ enhancementSuffix
               end).
  { intros p. unfold buildLocalPromptEnhancement. rewrite cleaned_words.
    pose proof (wsWords_truthy p) as Hw.
    destruct (wsWords p) as [| w ws]; [reflexivity |].
    pose proof (joinSpace_truthy w ws Hw) as Hj.
    rewrite (endsWithDot_join w ws Hw).
    destruct (joinSpace (w :: ws)) eqn:E; [contradiction |].
    cbn [JS.truthy negb].
    destruct (endsWithDot (List.last (w :: ws) EmptyString)); [reflexivity |].
    apply append_assoc3. }
  split; [apply G |].
  intros other E. rewrite (G other), (G prompt), E. reflexivity.
Qed.


Lemma truthy_empty (s : string) : JS.truthy s = false <-> s = EmptyString.
Proof. destruct s; split; (reflexivity || discriminate). Qed.


(** X18. The generate route, whatever the image service does: it answers
    400 exactly when neither a prompt nor a reference image is provided,
    500 exactly when the generator throws, and otherwise the blueprint of
    [generateModelSpec] for the prompt as received, with the texture of
    the service or [null] when the service threw.  The status and the
    blueprint do not depend on the image service nor on the content of
    the reference image; a request with an image and no prompt gets the
    blueprint of "abstract artifact". *)
Theorem generateModelRoute_reply
        (callHuggingFaceImage : string -> option string -> option string)
        (prompt referenceImageBase64 : option string) :
  let reply := generateModelRoute callHuggingFaceImage prompt referenceImageBase64 in
  ((provided prompt = false /\ provided referenceImageBase64 = false)
   <-> exists error, reply = GenerateRejected 400 error)
  /\ (((provided prompt = true \/ provided referenceImageBase64 = true)
       /\ generateModelSpec prompt = TypeError)
      <-> exists error, reply = GenerateRejected 500 error)
  /\ (forall status error,
         reply = GenerateRejected status error -> status = 400 \/ status = 500)
  /\ (forall texture modelSpec,
         reply = Generated texture modelSpec ->
         generateModelSpec prompt = Returned modelSpec
         /\ ProceduralModelSpec.prompt modelSpec = fallbackPrompt prompt
         /\ exists combinedPrompt,
             texture = callHuggingFaceImage combinedPrompt referenceImageBase64)
  /\ (forall otherService otherImage,
         provided otherImage = provided referenceImageBase64 ->
         match reply, generateModelRoute otherService prompt otherImage with
         | Generated _ modelSpec, Generated _ otherSpec => modelSpec = otherSpec
         | GenerateRejected status error, GenerateRejected status' error' =>
             status = status' /\ error = error'
         | _, _ => False
         end)
  /\ (provided prompt = false -> provided referenceImageBase64 = true ->
      exists texture modelSpec,
        reply = Generated texture modelSpec
        /\ generateModelSpec (Some "abstract artifact") = Returned modelSpec).
Proof.
  intros reply. subst reply. unfold generateModelRoute.
  destruct (provided prompt) eqn:Hp, (provided referenceImageBase64) eqn:Hi;
    cbn [negb andb orb].
  4:{ split; [split; eauto |].
      split; [split; [intros [[E | E] _]; discriminate
                     | intros [error E]; discriminate] |].
      split; [intros ? ? E; inversion E; auto |].
      split; [intros ? ? E; discriminate |].
      split; [| intros; discriminate].
      intros otherService otherImage ->. cbn [negb andb]. auto. }
  all: split; [split; [intros [E1 E2]; discriminate
                      | destruct (generateModelSpec prompt);
                        intros [error E]; discriminate] |].
  all: split;
    [split;
     [intros [_ E]; rewrite E; eauto
     | destruct (generateModelSpec prompt); intros [error E];
       [discriminate | split; [auto | reflexivity]]] |].
  all: split;
    [destruct (generateModelSpec prompt); intros ? ? E;
     [discriminate | inversion E; auto] |].
  all: split;
    [destruct (generateModelSpec prompt) as [spec |] eqn:G; intros ? ? E;
     [inversion E; subst; split;
      [reflexivity
      | split; [exact (proj1 (returned_prompt_seed prompt _ G)) | eauto]]
     | discriminate] |].
  all: split;
    [intros otherService otherImage ->; cbn [negb andb];
     destruct (generateModelSpec prompt); auto |].
  all: try (intros; discriminate).
  intros _ _.
  assert (F : generateModelSpec prompt = generateModelSpec (Some "abstract artifact")).
  { apply generateModelSpec_fallback.
    destruct prompt as [[| c t] |]; [reflexivity | discriminate | reflexivity]. }
  rewrite F.
  destruct (generateModelSpec (Some "abstract artifact")) as [spec |] eqn:G;
    [eauto | vm_compute in G; discriminate].
Qed.

End ServerProperties.
